(** * Loan calculator (script.ts): shallow embedding and verified properties

    The embedding follows [src/ts/script.ts] (and its compiled twin):
    [runValidation], [amountCondition], [rightTruncate] and [calculate].
    JavaScript Numbers are IEEE-754 binary64 values, modelled by the
    Standard Library's executable [spec_float] operations (precision 53,
    [emax] 1024), integers and exact quotients living in [Z].  The text of
    a form field is a [string] whose characters are code units below 256.
    The page elements receiving the error messages are passed explicitly:
    [calculate] returns their new state next to its result, and
    [Page.calculate] does the same on the whole page, where the elements
    are changed in place and may be shared between fields. *)

From Stdlib Require Import ZArith Bool List String Ascii Lia Sorted.
From Stdlib Require Import Floats.SpecFloat.
Import ListNotations.

Local Open Scope string_scope.
Local Open Scope Z_scope.

(** ** JavaScript Numbers *)

Module JS.

Definition number := spec_float.

Definition prec : Z := 53.
Definition emax : Z := 1024.

Definition NaN : number := S754_nan.
Definition Infinity : number := S754_infinity false.
Definition negInfinity : number := S754_infinity true.

(** [of_Z n] is the Number nearest to the integer [n] (ties to even). *)
Definition of_Z (n : Z) : number := binary_normalize prec emax n 0 false.

Definition add : number -> number -> number := SFadd prec emax.
Definition sub : number -> number -> number := SFsub prec emax.
Definition mul : number -> number -> number := SFmul prec emax.
Definition div : number -> number -> number := SFdiv prec emax.

(** Relational operators: a comparison with NaN on either side is false. *)
Definition lt (a b : number) : bool := SFltb a b.
Definition gt (a b : number) : bool := SFltb b a.
Definition le (a b : number) : bool :=
  match SFcompare b a with
  | Some Lt | None => false
  | Some _ => true
  end.
Definition ge (a b : number) : bool :=
  match SFcompare a b with
  | Some Lt | None => false
  | Some _ => true
  end.

Definition number_eqb (a b : number) : bool :=
  match a, b with
  | S754_zero s, S754_zero t => Bool.eqb s t
  | S754_infinity s, S754_infinity t => Bool.eqb s t
  | S754_nan, S754_nan => true
  | S754_finite s m e, S754_finite t n f =>
      Bool.eqb s t && Pos.eqb m n && Z.eqb e f
  | _, _ => false
  end.

(** [Math.ceil]: the least integral Number not below [x]; a negative [x]
    above -1 gives -0. *)
Definition ceil (x : number) : number :=
  match x with
  | S754_finite s m e =>
      let v := if s then Zneg m else Zpos m in
      let q := match e with
               | Zneg k => - ((- v) / 2 ^ Zpos k)
               | _ => v * 2 ^ e
               end in
      if q =? 0 then S754_zero s else of_Z q
  | _ => x
  end.

(** The [%] operator (Number::remainder): the result has the sign of the
    dividend and is exact. *)
Definition rem (n d : number) : number :=
  match n, d with
  | S754_nan, _ | _, S754_nan => NaN
  | S754_infinity _, _ => NaN
  | _, S754_zero _ => NaN
  | _, S754_infinity _ => n
  | S754_zero _, _ => n
  | S754_finite sn mn en, S754_finite _ md ed =>
      let e := Z.min en ed in
      let N := Zpos mn * 2 ^ (en - e) in
      let D := Zpos md * 2 ^ (ed - e) in
      let r := Z.rem (cond_Zopp sn N) D in
      if r =? 0 then S754_zero sn else binary_normalize prec emax r e false
  end.

(** The Number nearest to [m * 10^e] for a decimal mantissa [m >= 0]:
    the value of a decimal literal. *)
Definition of_decimal (neg : bool) (m e : Z) : number :=
  if m =? 0 then S754_zero neg
  else if 0 <=? e then binary_normalize prec emax (cond_Zopp neg (m * 10 ^ e)) 0 false
  else
    let '(q, e', l) := SFdiv_core_binary prec emax m 0 (10 ^ (- e)) 0 in
    binary_round_aux prec emax neg q e' l.

(** *** Text of a Number *)

Definition digit_char (d : Z) : ascii := ascii_of_N (Z.to_N (48 + d)).

Fixpoint digits_aux (fuel : nat) (n : Z) (acc : string) : string :=
  match fuel with
  | O => acc
  | S fuel' =>
      let acc' := String (digit_char (n mod 10)) acc in
      if n <? 10 then acc' else digits_aux fuel' (n / 10) acc'
  end.

(** The decimal numeral of a natural number. *)
Definition decimal (n : Z) : string :=
  digits_aux (S (Z.to_nat (Z.log2 n))) n "".

Fixpoint zeros (k : nat) : string :=
  match k with
  | O => ""
  | S k' => String "0" (zeros k')
  end.

(** [magnitude10 fuel a b] is the [n] with [10^(n-1) <= a/b < 10^n]. *)
Fixpoint magnitude_up (fuel : nat) (q : Z) (n : Z) : Z :=
  match fuel with
  | O => n
  | S fuel' => if q <? 10 then n else magnitude_up fuel' (q / 10) (n + 1)
  end.

Fixpoint magnitude_down (fuel : nat) (a b : Z) (n : Z) : Z :=
  match fuel with
  | O => n
  | S fuel' => if b <=? a then n else magnitude_down fuel' (a * 10) b (n - 1)
  end.

Definition magnitude10 (a b : Z) : Z :=
  if b <=? a then magnitude_up (S (Z.to_nat (Z.log2 a))) (a / b) 1
  else magnitude_down 400 (a * 10) b 0.

(** The digits [s] of length [k] and the decimal exponent [n] such that
    [s * 10^(n-k)] reads back as [x], tried at one length [k]: the two
    [k]-digit decimals around [a/b], the nearer one first. *)
Definition digits_at (x : number) (a b n0 : Z) (k : Z) : option (Z * Z) :=
  let up := Z.max 0 (k - n0) in
  let down := Z.max 0 (n0 - k) in
  let lo := (a * 10 ^ up) / (b * 10 ^ down) in
  let hi := lo + 1 in
  let dlo := a * 10 ^ up - lo * (b * 10 ^ down) in
  let dhi := hi * (b * 10 ^ down) - a * 10 ^ up in
  let ok (s : Z) := (10 ^ (k - 1) <=? s) && number_eqb (of_decimal false s (n0 - k)) x in
  let cand_lo := if ok lo then Some (n0, lo) else None in
  let cand_hi :=
    if hi =? 10 ^ k
    then (if number_eqb (of_decimal false (10 ^ (k - 1)) (n0 + 1 - k)) x
          then Some (n0 + 1, 10 ^ (k - 1)) else None)
    else (if ok hi then Some (n0, hi) else None) in
  match cand_lo, cand_hi with
  | Some c, None => Some c
  | None, Some c => Some c
  | None, None => None
  | Some c, Some c' =>
      match dlo ?= dhi with
      | Lt => Some c
      | Gt => Some c'
      | Eq => if Z.even lo then Some c else Some c'
      end
  end.

Fixpoint shortest_digits (x : number) (a b n0 : Z) (ks : list Z) : option (Z * Z * Z) :=
  match ks with
  | [] => None
  | k :: ks' =>
      match digits_at x a b n0 k with
      | Some (n, s) => Some (n, k, s)
      | None => shortest_digits x a b n0 ks'
      end
  end.

Definition lengths : list Z := [1;2;3;4;5;6;7;8;9;10;11;12;13;14;15;16;17].

Definition first_chars (n : nat) (s : string) : string := substring 0 n s.
Definition drop_chars (n : nat) (s : string) : string := substring n (length s - n) s.

(** Number::toString in radix 10 for a positive finite value [m * 2^e]:
    the shortest digits that read back as the value (17 always do, so the
    search finds some), laid out plainly, with a point or with an
    exponent according to the decimal exponent [n]. *)
Definition positive_to_string (m : positive) (e : Z) : string :=
  let a := match e with Zneg _ => Zpos m | _ => Zpos m * 2 ^ e end in
  let b := match e with Zneg k => 2 ^ Zpos k | _ => 1 end in
  match shortest_digits (S754_finite false m e) a b (magnitude10 a b) lengths with
  | None => "NaN"
  | Some (n, k, s) =>
      let ds := decimal s in
      if (k <=? n) && (n <=? 21) then ds ++ zeros (Z.to_nat (n - k))
      else if (0 <? n) && (n <=? 21) then
        first_chars (Z.to_nat n) ds ++ "." ++ drop_chars (Z.to_nat n) ds
      else if (-6 <? n) && (n <=? 0) then "0." ++ zeros (Z.to_nat (- n)) ++ ds
      else
        let ex := n - 1 in
        let sign := if ex <? 0 then "-" else "+" in
        if k =? 1 then ds ++ "e" ++ sign ++ decimal (Z.abs ex)
        else first_chars 1 ds ++ "." ++ drop_chars 1 ds ++ "e" ++ sign ++ decimal (Z.abs ex)
  end.

Definition toString (x : number) : string :=
  match x with
  | S754_nan => "NaN"
  | S754_zero _ => "0"
  | S754_infinity s => if s then "-Infinity" else "Infinity"
  | S754_finite s m e => (if s then "-" else "") ++ positive_to_string m e
  end.

(** *** Reading a Number from text *)

Definition is_white_space (c : ascii) : bool :=
  let n := N_of_ascii c in
  ((9 <=? n) && (n <=? 13) || (n =? 32) || (n =? 160))%N.

Fixpoint trim_start (s : string) : string :=
  match s with
  | String c s' => if is_white_space c then trim_start s' else s
  | EmptyString => EmptyString
  end.

(** The value of a character as a digit in radix [R], if it is one. *)
Definition digit_value (R : Z) (c : ascii) : option Z :=
  let n := Z.of_N (N_of_ascii c) in
  let v := if (48 <=? n) && (n <=? 57) then n - 48
           else if (97 <=? n) && (n <=? 122) then n - 87
           else if (65 <=? n) && (n <=? 90) then n - 55
           else R in
  if v <? R then Some v else None.

(** The longest prefix of radix-[R] digits, as digit values, and the rest. *)
Fixpoint span_digits (R : Z) (s : string) : list Z * string :=
  match s with
  | String c s' =>
      match digit_value R c with
      | Some d => let (ds, rest) := span_digits R s' in (d :: ds, rest)
      | None => ([], s)
      end
  | EmptyString => ([], EmptyString)
  end.

Definition digits_value (R : Z) (ds : list Z) : Z :=
  fold_left (fun acc d => acc * R + d) ds 0.

Definition strip_sign (s : string) : bool * string :=
  match s with
  | String c s' =>
      if Ascii.eqb c "-" then (true, s')
      else if Ascii.eqb c "+" then (false, s')
      else (false, s)
  | EmptyString => (false, s)
  end.

(** The integer read by [parseInt] without a radix argument, with the sign
    seen: leading white space, a sign, [0x] or [0X] for radix 16, then the
    digits up to the first character that is not one.  [None] when there is
    no digit. *)
Definition scan_int (input : string) : option (bool * Z) :=
  let (neg, S) := strip_sign (trim_start input) in
  let (R, S) :=
    match S with
    | String c0 (String c1 S') =>
        if Ascii.eqb c0 "0" && (Ascii.eqb c1 "x" || Ascii.eqb c1 "X")
        then (16, S') else (10, S)
    | _ => (10, S)
    end in
  match fst (span_digits R S) with
  | [] => None
  | ds => Some (neg, digits_value R ds)
  end.

Definition parseInt (input : string) : number :=
  match scan_int input with
  | None => NaN
  | Some (neg, mathInt) =>
      if mathInt =? 0 then S754_zero neg else of_Z (cond_Zopp neg mathInt)
  end.

Definition starts_with (p s : string) : bool := String.prefix p s.

(** The exponent part of a decimal literal: [e] or [E], an optional sign
    and at least one digit; absent otherwise. *)
Definition scan_exponent (s : string) : Z :=
  match s with
  | String c s' =>
      if Ascii.eqb c "e" || Ascii.eqb c "E" then
        let (neg, s'') := strip_sign s' in
        match fst (span_digits 10 s'') with
        | [] => 0
        | ds => cond_Zopp neg (digits_value 10 ds)
        end
      else 0
  | EmptyString => 0
  end.

(** What [parseFloat] reads: [Infinity], or the digits [m] and the decimal
    exponent [e] of a decimal literal worth [m * 10^e]. *)
Inductive literal :=
  | LitInfinity (neg : bool)
  | LitDecimal (neg : bool) (m e : Z).

(** The longest prefix of the trimmed text that is a decimal literal: a
    sign, then [Infinity] or digits with an optional fraction and
    exponent; [None] when there is none. *)
Definition scan_float (input : string) : option literal :=
  let (neg, S) := strip_sign (trim_start input) in
  if starts_with "Infinity" S then Some (LitInfinity neg)
  else
    let (int_ds, S1) := span_digits 10 S in
    let (frac_ds, S2) :=
      match S1 with
      | String c S' => if Ascii.eqb c "." then span_digits 10 S' else ([], S1)
      | EmptyString => ([], S1)
      end in
    match (int_ds ++ frac_ds)%list with
    | [] => None
    | ds => Some (LitDecimal neg (digits_value 10 ds)
                    (scan_exponent S2 - Z.of_nat (List.length frac_ds)))
    end.

(** [parseFloat]: the Number nearest to the literal read, NaN when there
    is none. *)
Definition parseFloat (input : string) : number :=
  match scan_float input with
  | None => NaN
  | Some (LitInfinity neg) => S754_infinity neg
  | Some (LitDecimal neg m e) => of_decimal neg m e
  end.

End JS.

(** ** The page elements the script touches *)

(** An element showing an error: its text and its class list. *)
Record Element := mkElement {
  textContent : string;
  classList : list string
}.

Definition classList_remove (c : string) (l : list string) : list string :=
  filter (fun x => negb (String.eqb x c)) l.

Definition classList_add (c : string) (l : list string) : list string :=
  if existsb (String.eqb c) l then l else (l ++ [c])%list.

(** An element is hidden while its class list holds [d-none]. *)
Definition hidden (el : Element) : bool :=
  existsb (String.eqb "d-none") (classList el).

(** A form field; only its [value] is read. *)
Record HTMLFormElement := mkField { value : string }.

(** [interface errorFields]; [document.querySelector] gives [null] (here
    [None]) when the page has no such element. *)
Record errorFields := mkErrorFields {
  borrowValidationFail : option Element;
  salaryValidationFail : option Element;
  repayValidationFail : option Element
}.

(** [interface feeData]. *)
Record feeData := mkFeeData {
  adminFeePounds : string;
  adminFeePennies : string;
  monthlyRepaymentPounds : string;
  monthlyRepaymentPennies : string;
  finalMonthPaymentPounds : string;
  finalMonthPaymentPennies : string;
  totalCostPounds : string;
  totalCostPennies : string;
  timeToRepay : string
}.

(** ** The functions of script.ts *)

Definition displayError (errorElement : Element) (errorMsg : string) : Element :=
  mkElement errorMsg (classList_remove "d-none" (classList errorElement)).

(** [runValidation]: the [throw] of the failing branch is caught by the
    function's own [catch], so the call always returns; the element, when
    there is one, is hidden on success and shows the message on failure. *)
Definition runValidation (condition : bool) (errorMsg : string)
    (errorElement : option Element) : bool * option Element :=
  if condition then
    (true,
     match errorElement with
     | Some el => Some (mkElement (textContent el) (classList_add "d-none" (classList el)))
     | None => None
     end)
  else
    (false,
     match errorElement with
     | Some el => Some (displayError el errorMsg)
     | None => None
     end).

Definition amountCondition (amountField : HTMLFormElement)
    (minValue maxValue : option JS.number) : bool :=
  let amountToMeasure := JS.parseInt (value amountField) in
  let minValue := match minValue with None => JS.negInfinity | Some v => v end in
  let maxValue := match maxValue with None => JS.Infinity | Some v => v end in
  if JS.ge amountToMeasure minValue && JS.le amountToMeasure maxValue then true else false.

(** [String.prototype.slice] with a negative start [-n]: the last [n]
    characters, the whole string when [n] is 0 or exceeds the length. *)
Definition slice_last (n : nat) (s : string) : string :=
  match n with
  | O => s
  | _ => substring (length s - n) n s
  end.

Fixpoint pad_loop (i : nat) (stringToPad : string) : string :=
  match i with
  | O => stringToPad
  | S i' => pad_loop i' (String "0" stringToPad)
  end.

Definition rightTruncate (input : JS.number) (len : nat) : string :=
  let stringToPad := JS.toString input in
  let stringToPad := pad_loop len stringToPad in
  slice_last len stringToPad.

(** The [const] bindings of the body of [calculate], in the order of the
    source. *)
Record workings := mkWorkings {
  amountToBorrow : JS.number;
  expectedSalary : JS.number;
  monthlyPercRepay : JS.number;
  adminFee : JS.number;
  totalCost : JS.number;
  monthlyAmountRepaid : JS.number;
  repayInLastMonth : JS.number;
  timeToRepayN : JS.number;
  adminFeePenniesN : JS.number;
  adminFeePoundsN : JS.number;
  monthlyRepaymentPenniesN : JS.number;
  monthlyRepaymentPoundsN : JS.number;
  finalMonthPaymentPenniesN : JS.number;
  finalMonthPaymentPoundsN : JS.number;
  totalCostPenniesN : JS.number;
  totalCostPoundsN : JS.number
}.

Definition num_0 : JS.number := JS.of_Z 0.
Definition num_1 : JS.number := JS.of_Z 1.
Definition num_100 : JS.number := JS.of_Z 100.
(** The literal [0.05]. *)
Definition num_0_05 : JS.number := JS.of_decimal false 5 (-2).

Definition compute (borrowField salaryField repayPercField : HTMLFormElement) : workings :=
  let amountToBorrow := JS.mul num_100 (JS.parseFloat (value borrowField)) in
  let expectedSalary := JS.mul num_100 (JS.parseFloat (value salaryField)) in
  let monthlyPercRepay := JS.div (JS.parseFloat (value repayPercField)) num_100 in
  let adminFee := JS.ceil (JS.mul num_0_05 amountToBorrow) in
  let totalCost :=
    JS.add (JS.add (JS.of_Z 800000)
              (if JS.gt amountToBorrow (JS.of_Z 640000) then JS.of_Z 50000 else num_0))
           (if JS.gt amountToBorrow (JS.of_Z 720000) then JS.of_Z 50000 else num_0) in
  let monthlyAmountRepaid := JS.ceil (JS.mul monthlyPercRepay expectedSalary) in
  let repayInLastMonth := JS.rem totalCost monthlyAmountRepaid in
  let timeToRepay :=
    JS.add num_1 (JS.ceil (JS.div (JS.sub totalCost repayInLastMonth) monthlyAmountRepaid)) in
  let adminFeePennies := JS.rem adminFee num_100 in
  let adminFeePounds := JS.div (JS.sub adminFee adminFeePennies) num_100 in
  let monthlyRepaymentPennies := JS.rem monthlyAmountRepaid num_100 in
  let monthlyRepaymentPounds := JS.div (JS.sub monthlyAmountRepaid monthlyRepaymentPennies) num_100 in
  let finalMonthPaymentPennies := JS.rem repayInLastMonth num_100 in
  let finalMonthPaymentPounds := JS.div (JS.sub repayInLastMonth finalMonthPaymentPennies) num_100 in
  let totalCostPennies := JS.rem totalCost num_100 in
  let totalCostPounds := JS.div (JS.sub totalCost totalCostPennies) num_100 in
  mkWorkings amountToBorrow expectedSalary monthlyPercRepay adminFee totalCost
    monthlyAmountRepaid repayInLastMonth timeToRepay
    adminFeePennies adminFeePounds monthlyRepaymentPennies monthlyRepaymentPounds
    finalMonthPaymentPennies finalMonthPaymentPounds totalCostPennies totalCostPounds.

(** The object literal returned by [calculate]. *)
Definition render (w : workings) : feeData :=
  mkFeeData
    (JS.toString (adminFeePoundsN w))
    (rightTruncate (adminFeePenniesN w) 2)
    (JS.toString (monthlyRepaymentPoundsN w))
    (rightTruncate (monthlyRepaymentPenniesN w) 2)
    (JS.toString (finalMonthPaymentPoundsN w))
    (rightTruncate (finalMonthPaymentPenniesN w) 2)
    (JS.toString (totalCostPoundsN w))
    (rightTruncate (totalCostPenniesN w) 2)
    (JS.toString (timeToRepayN w)).

Definition borrowMsg : string := "Amount to borrow must be a number between 0 and 9000".
Definition salaryMsg : string := "Expected monthly salary must be at least 0".
Definition repayMsg : string := "Amount to repay must be between 10% and 100%".

Definition borrowCondition (f : HTMLFormElement) : bool :=
  amountCondition f (Some num_0) (Some (JS.of_Z 9000)).
Definition salaryCondition (f : HTMLFormElement) : bool :=
  amountCondition f (Some num_0) None.
Definition repayCondition (f : HTMLFormElement) : bool :=
  amountCondition f (Some (JS.of_Z 10)) (Some num_100).

(** [calculate]: the three [runValidation] calls are the operands of [&&],
    evaluated left to right, an operand only when those before it were
    true.  The result is [None] for the [undefined] of the path without
    [return].  [errFields] is the object built by the click handler, the
    only caller.  Here the three error elements are passed as values, which
    describes a page on which they are three different elements;
    [Page.calculate] below works on the elements of the page by identity
    and covers members of [errFields] that are one and the same element. *)
Definition calculate (borrowField salaryField repayPercField : HTMLFormElement)
    (errFields : errorFields) : errorFields * option feeData :=
  let (ok1, el1) :=
    runValidation (borrowCondition borrowField) borrowMsg (borrowValidationFail errFields) in
  let errFields :=
    mkErrorFields el1 (salaryValidationFail errFields) (repayValidationFail errFields) in
  if ok1 then
    let (ok2, el2) :=
      runValidation (salaryCondition salaryField) salaryMsg (salaryValidationFail errFields) in
    let errFields :=
      mkErrorFields (borrowValidationFail errFields) el2 (repayValidationFail errFields) in
    if ok2 then
      let (ok3, el3) :=
        runValidation (repayCondition repayPercField) repayMsg (repayValidationFail errFields) in
      let errFields :=
        mkErrorFields (borrowValidationFail errFields) (salaryValidationFail errFields) el3 in
      if ok3 then
        (errFields, Some (render (compute borrowField salaryField repayPercField)))
      else (errFields, None)
    else (errFields, None)
  else (errFields, None).

(** ** Shapes of the rendered fields *)

Definition is_digit (c : ascii) : bool :=
  let n := N_of_ascii c in ((48 <=? n) && (n <=? 57))%N.

Fixpoint all_digits (s : string) : bool :=
  match s with
  | EmptyString => true
  | String c s' => is_digit c && all_digits s'
  end.

(** A plain decimal numeral: digits only (so no decimal point, sign or
    exponent), at least one, and no leading zero except in ["0"]. *)
Definition plain_numeral (s : string) : bool :=
  match s with
  | EmptyString => false
  | String c rest => all_digits s && (negb (Ascii.eqb c "0") || String.eqb rest "")
  end.

(** Exactly two decimal digits. *)
Definition two_digits (s : string) : bool :=
  match s with
  | String a (String b EmptyString) => is_digit a && is_digit b
  | _ => false
  end.

(** The two-character, zero-padded numeral of [r] in [0, 99]. *)
Definition pad2 (r : Z) : string :=
  String (JS.digit_char (r / 10)) (String (JS.digit_char (r mod 10)) "").

(** ** Notions used in the statements *)

(** All three range checks pass. *)
Definition validated (b s p : HTMLFormElement) : bool :=
  borrowCondition b && salaryCondition s && repayCondition p.

(** What [runValidation] does to the element of a field. *)
Definition show_error (msg : string) (e : option Element) : option Element :=
  option_map (fun el => displayError el msg) e.
Definition hide_error (e : option Element) : option Element :=
  option_map (fun el => mkElement (textContent el) (classList_add "d-none" (classList el))) e.



(** A page whose three error elements exist and are hidden. *)
Definition quiet : option Element := Some (mkElement "" ["d-none"]).
Definition quiet_page : errorFields := mkErrorFields quiet quiet quiet.

(** [Math.round]: the integer nearest to [x], a tie going up.  The script
    does not call it; the rounded reading of a field is stated with it. *)
Definition math_round (x : JS.number) : JS.number :=
  match x with
  | S754_finite s m e =>
      let v := if s then Zneg m else Zpos m in
      let q := match e with
               | Zneg k => (2 * v + 2 ^ Zpos k) / (2 * 2 ^ Zpos k)
               | _ => v * 2 ^ e
               end in
      if q =? 0 then S754_zero s else JS.of_Z q
  | _ => x
  end.

(** The entered amount, rounded, lies in [0, 9000]. *)
Definition rounds_into_range (f : HTMLFormElement) : bool :=
  let r := math_round (JS.parseFloat (value f)) in
  JS.ge r num_0 && JS.le r (JS.of_Z 9000).

(** The fee in exact decimal arithmetic: the least whole number of pence
    not below 5% of the amount entered, [0.05 * (100 * m * 10^e)]. *)
Definition exact_adminFee (text : string) : option Z :=
  match JS.scan_float text with
  | Some (JS.LitDecimal neg m e) =>
      let v := cond_Zopp neg (5 * m) in
      Some (if 0 <=? e then v * 10 ^ e else - ((- v) / 10 ^ (- e)))
  | _ => None
  end.

(** A digit value of radix 10. *)
Definition is_decimal_digit (d : Z) : Prop := 0 <= d < 10.

(** The text made of the decimal digits [ds]. *)
Definition digits_text (ds : list Z) : string :=
  fold_right (fun d s => String (JS.digit_char d) s) "" ds.

(** The text has no decimal digit. *)
Fixpoint no_digit (s : string) : bool :=
  match s with
  | EmptyString => true
  | String c s' => negb (is_digit c) && no_digit s'
  end.

(** The shape the rendered money fields are meant to have. *)
Definition well_formed_fields (fd : feeData) : bool :=
  two_digits (adminFeePennies fd) && two_digits (monthlyRepaymentPennies fd) &&
  two_digits (finalMonthPaymentPennies fd) && two_digits (totalCostPennies fd) &&
  plain_numeral (adminFeePounds fd) && plain_numeral (monthlyRepaymentPounds fd) &&
  plain_numeral (finalMonthPaymentPounds fd) && plain_numeral (totalCostPounds fd).

(** The [n] integers [lo, lo+1, ..., lo+n-1]. *)
Definition Zrange (lo n : Z) : list Z :=
  map (fun i => lo + Z.of_nat i) (seq 0 (Z.to_nat n)).

(** The expression of [totalCost] in the source, as a function of the
    amount borrowed in pence. *)
Definition totalCost_of (a : JS.number) : JS.number :=
  JS.add (JS.add (JS.of_Z 800000)
            (if JS.gt a (JS.of_Z 640000) then JS.of_Z 50000 else num_0))
         (if JS.gt a (JS.of_Z 720000) then JS.of_Z 50000 else num_0).

(** The Number holding the whole amount [N], [0 < N < 2^53], with sign
    [s]: a 53-bit mantissa and the matching exponent. *)
Definition canon (s : bool) (N : Z) : JS.number :=
  S754_finite s (Z.to_pos (N * 2 ^ (53 - Zdigits2 N))) (Zdigits2 N - 53).

(** A shift record with no bit shifted out yet. *)
Definition exact_record (m : Z) : shr_record := Build_shr_record m false false.


(** ** [calculate] with arguments that may be missing *)

(** At run time the fields come from [document.querySelector], which gives
    [null] for a missing element, and [errFields] is an optional parameter.
    Reading [.value] of a missing field, or a member of a missing
    [errFields], throws a TypeError; the error carries the error elements
    as they are at that moment. *)
Inductive outcome :=
  | Returned (errFields : errorFields) (result : option feeData)
  | TypeError (errFields : option errorFields).

(** The same evaluation as [calculate]: in each [runValidation] call the
    argument [amountCondition(field, ...)] is evaluated before the argument
    [errFields.member], and an operand of [&&] only when those before it
    were true. *)
Definition calculate_nullable
    (borrowField salaryField repayPercField : option HTMLFormElement)
    (errFields : option errorFields) : outcome :=
  match borrowField with
  | None => TypeError errFields
  | Some bf =>
  match errFields with
  | None => TypeError None
  | Some ef =>
    let (ok1, el1) :=
      runValidation (borrowCondition bf) borrowMsg (borrowValidationFail ef) in
    let ef := mkErrorFields el1 (salaryValidationFail ef) (repayValidationFail ef) in
    if ok1 then
      match salaryField with
      | None => TypeError (Some ef)
      | Some sf =>
        let (ok2, el2) :=
          runValidation (salaryCondition sf) salaryMsg (salaryValidationFail ef) in
        let ef := mkErrorFields (borrowValidationFail ef) el2 (repayValidationFail ef) in
        if ok2 then
          match repayPercField with
          | None => TypeError (Some ef)
          | Some pf =>
            let (ok3, el3) :=
              runValidation (repayCondition pf) repayMsg (repayValidationFail ef) in
            let ef :=
              mkErrorFields (borrowValidationFail ef) (salaryValidationFail ef) el3 in
            if ok3 then Returned ef (Some (render (compute bf sf pf)))
            else Returned ef None
          end
        else Returned ef None
      end
    else Returned ef None
  end
  end.

(** ** Further notions used in the statements *)

(** The classes of an element other than [d-none], in order. *)
Definition other_classes (el : Element) : list string :=
  classList_remove "d-none" (classList el).

(** All three error elements exist. *)
Definition all_present (errs : errorFields) : Prop :=
  borrowValidationFail errs <> None /\ salaryValidationFail errs <> None /\
  repayValidationFail errs <> None.

Definition hidden_opt (e : option Element) : bool :=
  match e with
  | Some el => hidden el
  | None => true
  end.

(** No error element is visible. *)
Definition all_hidden (errs : errorFields) : bool :=
  hidden_opt (borrowValidationFail errs) && hidden_opt (salaryValidationFail errs) &&
  hidden_opt (repayValidationFail errs).

(** The total cost in pence for a whole number [N] of pounds borrowed. *)
Definition totalCost_pounds (N : Z) : Z :=
  800000 + (if 6400 <? N then 50000 else 0) + (if 7200 <? N then 50000 else 0).

(** The classes other than [d-none] of an element that may be missing. *)
Definition other_classes_opt (e : option Element) : option (list string) :=
  option_map other_classes e.

(** What [calculate] never changes: which error elements exist, and their
    classes other than [d-none]. *)
Definition frame (errs : errorFields) : list (option (list string)) :=
  [other_classes_opt (borrowValidationFail errs);
   other_classes_opt (salaryValidationFail errs);
   other_classes_opt (repayValidationFail errs)].

(** A whole bound that may be left [undefined]. *)
Definition bound (b : option Z) : option JS.number := option_map JS.of_Z b.

Definition at_least (lo : option Z) (v : Z) : bool :=
  match lo with Some l => l <=? v | None => true end.
Definition at_most (hi : option Z) (v : Z) : bool :=
  match hi with Some h => v <=? h | None => true end.

(** The whole bounds the exact reading of the comparisons holds for:
    those of magnitude below 2^53, which Numbers hold exactly. *)
Definition bound_ok (b : option Z) : Prop :=
  match b with Some c => - 2 ^ 53 < c < 2 ^ 53 | None => True end.

(** The last [len] decimal digits of [n], filled up with zeros in front. *)
Fixpoint last_digits (len : nat) (n : Z) : string :=
  match len with
  | O => ""
  | S len' => last_digits len' (n / 10) ++ String (JS.digit_char (n mod 10)) ""
  end.

(** A text at which the digits of a decimal integer end: the empty text,
    or one starting with a character that is neither a decimal digit nor
    the [x] of a hexadecimal prefix. *)
Definition stops_integer (rest : string) : bool :=
  match rest with
  | EmptyString => true
  | String c _ => negb (is_digit c) && negb (Ascii.eqb c "x") && negb (Ascii.eqb c "X")
  end.

(** The four amounts of money [calculate] shows, each in a pounds and a
    pennies field. *)
Inductive amount := AdminFee | MonthlyRepayment | FinalMonthPayment | TotalCost.

Definition amount_of (k : amount) (w : workings) : JS.number :=
  match k with
  | AdminFee => adminFee w
  | MonthlyRepayment => monthlyAmountRepaid w
  | FinalMonthPayment => repayInLastMonth w
  | TotalCost => totalCost w
  end.

Definition pounds_of (k : amount) (fd : feeData) : string :=
  match k with
  | AdminFee => adminFeePounds fd
  | MonthlyRepayment => monthlyRepaymentPounds fd
  | FinalMonthPayment => finalMonthPaymentPounds fd
  | TotalCost => totalCostPounds fd
  end.

Definition pennies_of (k : amount) (fd : feeData) : string :=
  match k with
  | AdminFee => adminFeePennies fd
  | MonthlyRepayment => monthlyRepaymentPennies fd
  | FinalMonthPayment => finalMonthPaymentPennies fd
  | TotalCost => totalCostPennies fd
  end.

(** The pounds and pennies texts, read as integers by [parseInt], make up
    the amount [a] of pence. *)
Definition reads_as (pounds pennies : string) (a : Z) : Prop :=
  exists q r,
    JS.scan_int pounds = Some (false, q) /\ JS.scan_int pennies = Some (false, r) /\
    0 <= r < 100 /\ 100 * q + r = a.

(** The monthly repayment in exact decimal arithmetic, following the words
    of the specification: the least whole number of pence not below
    [repayPercent / 100] times the monthly salary in pence, that is
    [(p / 100) * (100 * s) = p * s] for the decimals [s] and [p] the salary
    and percentage texts hold. *)
Definition exact_monthlyRepayment (salary percentage : string) : option Z :=
  match JS.scan_float salary, JS.scan_float percentage with
  | Some (JS.LitDecimal sneg sm se), Some (JS.LitDecimal pneg pm pe) =>
      let v := cond_Zopp (xorb sneg pneg) (sm * pm) in
      let e := se + pe in
      Some (if 0 <=? e then v * 10 ^ e else - ((- v) / 10 ^ (- e)))
  | _, _ => None
  end.

(** ** The page as a store of elements *)

(** The script holds references to the elements of the page and changes
    them in place: two members of [errFields] that are the same element
    share its state.  The page is the state of every element, by
    identity; a member of [errFields] is the identity of an element, or
    [None] for the [null] of a failed [querySelector]. *)
Module Page.

Definition elements := nat -> Element.

Definition set (r : nat) (el : Element) (st : elements) : elements :=
  fun r' => if Nat.eqb r' r then el else st r'.

Record errorFields := mkErrorFields {
  borrowValidationFail : option nat;
  salaryValidationFail : option nat;
  repayValidationFail : option nat
}.

Definition displayError (errorElement : nat) (errorMsg : string) (st : elements) : elements :=
  set errorElement (displayError (st errorElement) errorMsg) st.

Definition runValidation (condition : bool) (errorMsg : string)
    (errorElement : option nat) (st : elements) : bool * elements :=
  if condition then
    (true,
     match errorElement with
     | Some r =>
         set r (mkElement (textContent (st r)) (classList_add "d-none" (classList (st r)))) st
     | None => st
     end)
  else
    (false,
     match errorElement with
     | Some r => displayError r errorMsg st
     | None => st
     end).

(** What [runValidation] does to the page. *)
Definition hide_error (e : option nat) (st : elements) : elements :=
  snd (runValidation true EmptyString e st).
Definition show_error (msg : string) (e : option nat) (st : elements) : elements :=
  snd (runValidation false msg e st).

Definition calculate (borrowField salaryField repayPercField : HTMLFormElement)
    (errFields : errorFields) (st : elements) : elements * option feeData :=
  let (ok1, st) :=
    runValidation (borrowCondition borrowField) borrowMsg (borrowValidationFail errFields) st in
  if ok1 then
    let (ok2, st) :=
      runValidation (salaryCondition salaryField) salaryMsg (salaryValidationFail errFields) st in
    if ok2 then
      let (ok3, st) :=
        runValidation (repayCondition repayPercField) repayMsg
                      (repayValidationFail errFields) st in
      if ok3 then (st, Some (render (compute borrowField salaryField repayPercField)))
      else (st, None)
    else (st, None)
  else (st, None).

(** The member [e] of [errFields] is the element [r]. *)
Definition refers (e : option nat) (r : nat) : bool :=
  match e with Some r' => Nat.eqb r' r | None => false end.






End Page.

(** The error elements of the page as the values [calculate] takes. *)
Definition view (errFields : Page.errorFields) (st : Page.elements) : errorFields :=
  mkErrorFields (option_map st (Page.borrowValidationFail errFields))
                (option_map st (Page.salaryValidationFail errFields))
                (option_map st (Page.repayValidationFail errFields)).

(** The members of [errFields] that exist are different elements. *)
Definition distinct (errFields : Page.errorFields) : Prop :=
  forall r,
    (Page.refers (Page.borrowValidationFail errFields) r &&
     Page.refers (Page.salaryValidationFail errFields) r
     || Page.refers (Page.borrowValidationFail errFields) r &&
        Page.refers (Page.repayValidationFail errFields) r
     || Page.refers (Page.salaryValidationFail errFields) r &&
        Page.refers (Page.repayValidationFail errFields) r)
    = false.
(** ** Properties *)

Lemma Zrange_forallb (f : Z -> bool) (lo n : Z) :
  forallb f (Zrange lo n) = true ->
  forall q, lo <= q < lo + n -> f q = true.
Proof.
  intros H q Hq.
  rewrite forallb_forall in H. apply H.
  unfold Zrange. apply in_map_iff.
  exists (Z.to_nat (q - lo)). split; [lia|].
  apply in_seq. lia.
Qed.

(** ** Exact arithmetic on whole Numbers below 2^53 *)

Lemma digits2_pos_size p : digits2_pos p = Pos.size p.
Proof. induction p; simpl; congruence. Qed.

Lemma Zdigits2_log2 n : 0 < n -> Zdigits2 n = Z.log2 n + 1.
Proof.
  destruct n as [|p|p]; try lia. intros _. simpl. rewrite digits2_pos_size.
  destruct p; simpl; try lia.
Qed.

Lemma Zdigits2_bounds n : 0 < n -> 2 ^ (Zdigits2 n - 1) <= n < 2 ^ Zdigits2 n.
Proof.
  intros H. rewrite Zdigits2_log2 by assumption.
  replace (Z.log2 n + 1 - 1) with (Z.log2 n) by lia.
  apply Z.log2_spec. assumption.
Qed.

Lemma Zdigits2_pos n : 0 < n -> 0 < Zdigits2 n.
Proof. intros H. rewrite Zdigits2_log2 by assumption. pose proof (Z.log2_nonneg n). lia. Qed.

Lemma Zdigits2_unique n d : 0 < d -> 2 ^ (d - 1) <= n < 2 ^ d -> Zdigits2 n = d.
Proof.
  intros Hd H. assert (0 < n) by (pose proof (Z.pow_pos_nonneg 2 (d-1)); lia).
  rewrite Zdigits2_log2 by assumption.
  assert (Z.log2 n = d - 1); [|lia].
  apply Z.log2_unique; [lia|].
  replace (Z.succ (d - 1)) with d by lia. assumption.
Qed.

Lemma Zdigits2_mul_pow2 n k : 0 < n -> 0 <= k -> Zdigits2 (n * 2 ^ k) = Zdigits2 n + k.
Proof.
  intros Hn Hk.
  assert (0 < 2 ^ k) by (apply Z.pow_pos_nonneg; lia).
  assert (0 < n * 2 ^ k) by nia.
  rewrite !Zdigits2_log2 by assumption.
  rewrite Z.log2_mul_pow2 by lia. lia.
Qed.

Lemma Zdigits2_le_53 n : 0 < n < 2 ^ 53 -> Zdigits2 n <= 53.
Proof.
  intros H. destruct (Z_le_gt_dec (Zdigits2 n) 53) as [|Hgt]; [assumption|].
  pose proof (Zdigits2_bounds n ltac:(lia)) as [Hlo _].
  assert (2 ^ 53 <= 2 ^ (Zdigits2 n - 1)) by (apply Z.pow_le_mono_r; lia). lia.
Qed.

Lemma iter_pos_nat {A} (f : A -> A) p x : iter_pos f p x = Nat.iter (Pos.to_nat p) f x.
Proof.
  revert x. induction p; intros x; simpl iter_pos.
  - rewrite !IHp. rewrite Pos2Nat.inj_xI.
    replace (S (2 * Pos.to_nat p)) with (Pos.to_nat p + (Pos.to_nat p + 1))%nat by lia.
    rewrite !Nat.iter_add. simpl. reflexivity.
  - rewrite !IHp. rewrite Pos2Nat.inj_xO.
    replace (2 * Pos.to_nat p)%nat with (Pos.to_nat p + Pos.to_nat p)%nat by lia.
    rewrite Nat.iter_add. reflexivity.
  - reflexivity.
Qed.

Lemma shr_1_double m : 0 <= m -> shr_1 (exact_record (2 * m)) = exact_record m.
Proof. destruct m as [|p|p]; try lia; intros _; reflexivity. Qed.

Lemma iter_shr_1_exact k m :
  0 <= m -> Nat.iter k shr_1 (exact_record (m * 2 ^ Z.of_nat k)) = exact_record m.
Proof.
  revert m. induction k; intros m Hm.
  - simpl. f_equal. lia.
  - rewrite Nat2Z.inj_succ, Z.pow_succ_r by lia.
    rewrite Nat.iter_succ. replace (m * (2 * 2 ^ Z.of_nat k)) with ((2 * m) * 2 ^ Z.of_nat k) by lia.
    rewrite IHk by lia. apply shr_1_double. assumption.
Qed.

Lemma shr_exact m e k :
  0 <= m -> 0 <= k -> shr (exact_record (m * 2 ^ k)) e k = (exact_record m, e + k).
Proof.
  intros Hm Hk. destruct k as [|p|p]; try lia.
  - simpl. rewrite Z.mul_1_r. f_equal. lia.
  - unfold shr. rewrite iter_pos_nat. f_equal.
    rewrite <- (positive_nat_Z p) at 1. apply iter_shr_1_exact. assumption.
Qed.

Lemma fexp_small d : -1021 <= d -> fexp JS.prec JS.emax d = d - 53.
Proof. unfold fexp, emin, JS.prec, JS.emax. lia. Qed.

Lemma binary_round_aux_exact s N E :
  0 < N < 2 ^ 53 -> E <= Zdigits2 N - 53 ->
  binary_round_aux JS.prec JS.emax s (N * 2 ^ (- E)) E loc_Exact = canon s N.
Proof.
  intros HN HE.
  pose proof (Zdigits2_pos N ltac:(lia)) as Hd0.
  pose proof (Zdigits2_le_53 N HN) as Hd53.
  set (d := Zdigits2 N) in *.
  assert (HM : Zdigits2 (N * 2 ^ (- E)) = d - E).
  { rewrite Zdigits2_mul_pow2 by lia. fold d. lia. }
  unfold binary_round_aux, shr_fexp.
  rewrite HM. replace (d - E + E) with d by lia.
  rewrite fexp_small by lia. cbn [shr_record_of_loc].
  replace (N * 2 ^ (- E)) with ((N * 2 ^ (53 - d)) * 2 ^ (d - 53 - E)).
  2:{ rewrite <- Z.mul_assoc, <- Z.pow_add_r by lia. do 2 f_equal. lia. }
  assert (Hm : 0 < N * 2 ^ (53 - d)).
  { assert (0 < 2 ^ (53 - d)) by (apply Z.pow_pos_nonneg; lia). nia. }
  fold (exact_record (N * 2 ^ (53 - d) * 2 ^ (d - 53 - E))).
  rewrite shr_exact by lia.
  cbn [exact_record shr_m loc_of_shr_record round_nearest_even].
  replace (E + (d - 53 - E)) with (d - 53) by lia.
  rewrite Zdigits2_mul_pow2 by lia. fold d.
  replace (d + (53 - d) + (d - 53)) with d by lia.
  rewrite fexp_small by lia. rewrite Z.sub_diag.
  cbn [shr shr_m].
  unfold canon. fold d.
  destruct (N * 2 ^ (53 - d)) as [|q|q] eqn:Hq; try lia.
  replace (d - 53 <=? JS.emax - JS.prec) with true.
  2:{ symmetry. apply Z.leb_le. unfold JS.emax, JS.prec. lia. }
  reflexivity.
Qed.

Lemma Pos_iter_xO m d : Zpos (Pos.iter xO m d) = Zpos m * 2 ^ Zpos d.
Proof.
  induction d using Pos.peano_ind.
  - simpl. lia.
  - rewrite Pos.iter_succ, Pos2Z.inj_succ, Z.pow_succ_r by lia.
    rewrite Pos2Z.inj_xO, IHd. lia.
Qed.

Lemma shl_align_fst m e e' :
  e' <= e -> Zpos (fst (shl_align m e e')) = Zpos m * 2 ^ (e - e').
Proof.
  intros H. unfold shl_align.
  destruct (e' - e) as [|d|d] eqn:Hd; try lia; cbn [fst].
  - replace (e - e') with 0 by lia. lia.
  - rewrite Pos_iter_xO. f_equal. f_equal. lia.
Qed.

Lemma binary_round_exact s N E mx :
  0 < N < 2 ^ 53 -> E <= 0 -> Zpos mx = N * 2 ^ (- E) ->
  binary_round JS.prec JS.emax s mx E = canon s N.
Proof.
  intros HN HE Hmx.
  pose proof (Zdigits2_pos N ltac:(lia)) as Hd0.
  pose proof (Zdigits2_le_53 N HN) as Hd53.
  unfold binary_round.
  change (Zpos (digits2_pos mx)) with (Zdigits2 (Zpos mx)).
  rewrite Hmx, Zdigits2_mul_pow2 by lia.
  replace (Zdigits2 N + - E + E) with (Zdigits2 N) by lia.
  rewrite fexp_small by lia.
  unfold shl_align.
  destruct (Zdigits2 N - 53 - E) as [|d|d] eqn:Hd.
  - rewrite Hmx. apply binary_round_aux_exact; lia.
  - rewrite Hmx. apply binary_round_aux_exact; lia.
  - rewrite Pos_iter_xO, Hmx.
    rewrite <- Z.mul_assoc, <- Z.pow_add_r by lia.
    replace (- E + Zpos d) with (- (Zdigits2 N - 53)) by lia.
    apply binary_round_aux_exact; lia.
Qed.

Lemma binary_normalize_exact N E :
  0 < N < 2 ^ 53 -> E <= 0 ->
  binary_normalize JS.prec JS.emax (N * 2 ^ (- E)) E false = canon false N.
Proof.
  intros HN HE.
  assert (0 < 2 ^ (- E)) by (apply Z.pow_pos_nonneg; lia).
  destruct (N * 2 ^ (- E)) as [|m|m] eqn:Hm; try nia.
  cbn [binary_normalize]. apply binary_round_exact; auto.
Qed.

Lemma binary_normalize_exact_neg N E :
  0 < N < 2 ^ 53 -> E <= 0 ->
  binary_normalize JS.prec JS.emax (- (N * 2 ^ (- E))) E false = canon true N.
Proof.
  intros HN HE.
  assert (0 < 2 ^ (- E)) by (apply Z.pow_pos_nonneg; lia).
  destruct (N * 2 ^ (- E)) as [|m|m] eqn:Hm; try nia.
  cbn [Z.opp binary_normalize]. apply binary_round_exact; auto.
Qed.

Lemma of_Z_canon N : 0 < N < 2 ^ 53 -> JS.of_Z N = canon false N.
Proof.
  intros H. unfold JS.of_Z.
  rewrite <- (binary_normalize_exact N 0) by lia.
  f_equal. simpl. lia.
Qed.

Lemma of_Z_canon_neg N : 0 < N < 2 ^ 53 -> JS.of_Z (- N) = canon true N.
Proof.
  intros H. unfold JS.of_Z.
  rewrite <- (binary_normalize_exact_neg N 0) by lia.
  f_equal. simpl. lia.
Qed.

(** The mantissa and exponent of a canonical number. *)
Lemma canon_mantissa N :
  0 < N < 2 ^ 53 ->
  Zpos (Z.to_pos (N * 2 ^ (53 - Zdigits2 N))) = N * 2 ^ (53 - Zdigits2 N).
Proof.
  intros H. pose proof (Zdigits2_le_53 N H).
  assert (0 < 2 ^ (53 - Zdigits2 N)) by (apply Z.pow_pos_nonneg; lia).
  rewrite Z2Pos.id; nia.
Qed.

Lemma rem_exact a d :
  0 < a < 2 ^ 53 -> 0 < d < 2 ^ 53 ->
  JS.rem (JS.of_Z a) (JS.of_Z d) = JS.of_Z (a mod d).
Proof.
  intros Ha Hd. rewrite (of_Z_canon a), (of_Z_canon d) by assumption.
  pose proof (Zdigits2_le_53 a Ha). pose proof (Zdigits2_le_53 d Hd).
  pose proof (Zdigits2_pos a ltac:(lia)). pose proof (Zdigits2_pos d ltac:(lia)).
  unfold canon, JS.rem. rewrite !canon_mantissa by assumption.
  set (e := Z.min (Zdigits2 a - 53) (Zdigits2 d - 53)).
  cbn [cond_Zopp].
  rewrite <- !Z.mul_assoc, <- !Z.pow_add_r by lia.
  replace (53 - Zdigits2 a + (Zdigits2 a - 53 - e)) with (- e) by lia.
  replace (53 - Zdigits2 d + (Zdigits2 d - 53 - e)) with (- e) by lia.
  assert (0 < 2 ^ (- e)) by (apply Z.pow_pos_nonneg; lia).
  rewrite Z.rem_mod_nonneg by nia.
  rewrite Z.mul_mod_distr_r by lia.
  pose proof (Z.mod_pos_bound a d ltac:(lia)).
  destruct (Z.eq_dec (a mod d) 0) as [Hz|Hz].
  - rewrite Hz. reflexivity.
  - replace (a mod d * 2 ^ (- e) =? 0) with false by (symmetry; apply Z.eqb_neq; nia).
    rewrite binary_normalize_exact by lia.
    symmetry. apply of_Z_canon. lia.
Qed.

Lemma sub_exact a p :
  0 < p <= a -> a < 2 ^ 53 ->
  JS.sub (JS.of_Z a) (JS.of_Z p) = JS.of_Z (a - p).
Proof.
  intros Hp Ha. rewrite (of_Z_canon a), (of_Z_canon p) by lia.
  pose proof (Zdigits2_le_53 a ltac:(lia)). pose proof (Zdigits2_le_53 p ltac:(lia)).
  unfold canon, JS.sub, SFsub.
  set (e := Z.min (Zdigits2 a - 53) (Zdigits2 p - 53)).
  rewrite !shl_align_fst by lia. rewrite !canon_mantissa by lia.
  cbn [cond_Zopp].
  rewrite <- !Z.mul_assoc, <- !Z.pow_add_r by lia.
  replace (53 - Zdigits2 a + (Zdigits2 a - 53 - e)) with (- e) by lia.
  replace (53 - Zdigits2 p + (Zdigits2 p - 53 - e)) with (- e) by lia.
  rewrite <- Z.mul_sub_distr_r.
  destruct (Z.eq_dec a p) as [->|Hne].
  - rewrite Z.sub_diag. reflexivity.
  - rewrite binary_normalize_exact by lia. symmetry. apply of_Z_canon. lia.
Qed.

Lemma add_exact a b :
  0 < a -> 0 < b -> a + b < 2 ^ 53 ->
  JS.add (JS.of_Z a) (JS.of_Z b) = JS.of_Z (a + b).
Proof.
  intros Ha Hb Hab. rewrite (of_Z_canon a), (of_Z_canon b) by lia.
  pose proof (Zdigits2_le_53 a ltac:(lia)). pose proof (Zdigits2_le_53 b ltac:(lia)).
  unfold canon, JS.add, SFadd.
  set (e := Z.min (Zdigits2 a - 53) (Zdigits2 b - 53)).
  rewrite !shl_align_fst by lia. rewrite !canon_mantissa by lia.
  cbn [cond_Zopp].
  rewrite <- !Z.mul_assoc, <- !Z.pow_add_r by lia.
  replace (53 - Zdigits2 a + (Zdigits2 a - 53 - e)) with (- e) by lia.
  replace (53 - Zdigits2 b + (Zdigits2 b - 53 - e)) with (- e) by lia.
  rewrite <- Z.mul_add_distr_r.
  rewrite binary_normalize_exact by lia. symmetry. apply of_Z_canon. lia.
Qed.

Lemma canon_digits N :
  0 < N < 2 ^ 53 -> Zdigits2 (N * 2 ^ (53 - Zdigits2 N)) = 53.
Proof.
  intros H. pose proof (Zdigits2_le_53 N H).
  rewrite Zdigits2_mul_pow2 by lia. lia.
Qed.

Lemma div_eucl_div_mod a b : Z.div_eucl a b = (a / b, a mod b).
Proof. unfold Z.div, Z.modulo. destruct (Z.div_eucl a b). reflexivity. Qed.

Lemma new_location_0 n : new_location n 0 = loc_Exact.
Proof. unfold new_location. destruct (Z.even n); reflexivity. Qed.

Lemma Zdigits2_mul_le m q : 0 < m -> 0 < q -> Zdigits2 (m * q) <= Zdigits2 m + Zdigits2 q.
Proof.
  intros Hm Hq.
  pose proof (Zdigits2_bounds m Hm) as [_ Bm].
  pose proof (Zdigits2_bounds q Hq) as [_ Bq].
  pose proof (Zdigits2_bounds (m * q) ltac:(nia)) as [Bc _].
  pose proof (Zdigits2_pos m Hm). pose proof (Zdigits2_pos q Hq).
  pose proof (Zdigits2_pos (m * q) ltac:(nia)).
  destruct (Z_le_gt_dec (Zdigits2 (m * q)) (Zdigits2 m + Zdigits2 q)) as [|Hgt]; [assumption|].
  assert (2 ^ (Zdigits2 m + Zdigits2 q) <= 2 ^ (Zdigits2 (m * q) - 1))
    by (apply Z.pow_le_mono_r; lia).
  rewrite Z.pow_add_r in * by lia. nia.
Qed.

Lemma div_exact m q :
  0 < m -> 0 < q -> m * q < 2 ^ 53 ->
  JS.div (JS.of_Z (m * q)) (JS.of_Z m) = JS.of_Z q.
Proof.
  intros Hm Hq Hc.
  assert (Hm53 : 0 < m < 2 ^ 53) by nia.
  assert (Hq53 : 0 < q < 2 ^ 53) by nia.
  assert (Hc53 : 0 < m * q < 2 ^ 53) by nia.
  rewrite (of_Z_canon (m * q)), (of_Z_canon m), (of_Z_canon q) by assumption.
  pose proof (Zdigits2_le_53 _ Hm53). pose proof (Zdigits2_le_53 _ Hq53).
  pose proof (Zdigits2_le_53 _ Hc53).
  pose proof (Zdigits2_pos m ltac:(lia)). pose proof (Zdigits2_pos q ltac:(lia)).
  pose proof (Zdigits2_pos (m * q) ltac:(lia)).
  pose proof (Zdigits2_mul_le m q Hm Hq).
  unfold canon at 1 2.
  unfold JS.div, SFdiv, SFdiv_core_binary.
  rewrite !canon_mantissa by assumption.
  rewrite (canon_digits (m * q)), (canon_digits m) by assumption.
  set (dc := Zdigits2 (m * q)) in *. set (dm := Zdigits2 m) in *.
  replace (53 + (dc - 53) - (53 + (dm - 53))) with (dc - dm) by lia.
  rewrite fexp_small by lia.
  replace (Z.min (dc - dm - 53) (dc - 53 - (dm - 53))) with (dc - dm - 53) by lia.
  replace (dc - 53 - (dm - 53) - (dc - dm - 53)) with 53 by lia.
  rewrite Z.shiftl_mul_pow2 by lia.
  rewrite div_eucl_div_mod.
  assert (0 < 2 ^ (53 - dm)) by (apply Z.pow_pos_nonneg; lia).
  assert (Hfact : m * q * 2 ^ (53 - dc) * 2 ^ 53 =
                  (q * 2 ^ (- (dc - dm - 53))) * (m * 2 ^ (53 - dm))).
  { assert (E1 : 2 ^ (53 - dc) * 2 ^ 53 = 2 ^ (106 - dc))
      by (rewrite <- Z.pow_add_r by lia; f_equal; lia).
    assert (E2 : 2 ^ (- (dc - dm - 53)) * 2 ^ (53 - dm) = 2 ^ (106 - dc))
      by (rewrite <- Z.pow_add_r by lia; f_equal; lia).
    transitivity (m * q * 2 ^ (106 - dc)); [rewrite <- E1 | rewrite <- E2]; ring. }
  rewrite Hfact.
  rewrite Z.div_mul, Z.mod_mul by nia.
  rewrite new_location_0. cbn [xorb].
  apply binary_round_aux_exact; lia.
Qed.

Lemma ceil_of_Z q : 0 < q < 2 ^ 53 -> JS.ceil (JS.of_Z q) = JS.of_Z q.
Proof.
  intros Hq. rewrite of_Z_canon by assumption.
  pose proof (Zdigits2_le_53 q Hq). pose proof (Zdigits2_pos q ltac:(lia)).
  unfold canon at 1. unfold JS.ceil.
  assert (Hv : (match Zdigits2 q - 53 with
          | Z.neg k => - (- Z.pos (Z.to_pos (q * 2 ^ (53 - Zdigits2 q))) / 2 ^ Z.pos k)
          | _ => Z.pos (Z.to_pos (q * 2 ^ (53 - Zdigits2 q))) * 2 ^ (Zdigits2 q - 53)
          end) = q).
  { rewrite canon_mantissa by assumption.
    destruct (Zdigits2 q - 53) as [|k|k] eqn:Hk; try lia.
    - replace (53 - Zdigits2 q) with 0 by lia. simpl. lia.
    - replace (53 - Zdigits2 q) with (Zpos k) by lia.
      rewrite <- Z.mul_opp_l, Z.div_mul by (apply Z.pow_nonzero; lia). lia. }
  rewrite Hv.
  replace (q =? 0) with false by (symmetry; apply Z.eqb_neq; lia).
  apply of_Z_canon. assumption.
Qed.

Lemma compare_canon a b :
  0 < a < 2 ^ 53 -> 0 < b < 2 ^ 53 ->
  SFcompare (canon false a) (canon false b) = Some (a ?= b).
Proof.
  intros Ha Hb.
  pose proof (Zdigits2_le_53 a Ha). pose proof (Zdigits2_le_53 b Hb).
  pose proof (Zdigits2_pos a ltac:(lia)). pose proof (Zdigits2_pos b ltac:(lia)).
  pose proof (Zdigits2_bounds a ltac:(lia)) as [La Ua].
  pose proof (Zdigits2_bounds b ltac:(lia)) as [Lb Ub].
  unfold canon, SFcompare. f_equal.
  destruct (Z.compare_spec (Zdigits2 a - 53) (Zdigits2 b - 53)) as [He|He|He].
  - change (Pos.compare_cont Eq ?x ?y) with (Z.compare (Zpos x) (Zpos y)).
    rewrite !canon_mantissa by assumption.
    replace (Zdigits2 b) with (Zdigits2 a) by lia.
    assert (0 < 2 ^ (53 - Zdigits2 a)) by (apply Z.pow_pos_nonneg; lia).
    destruct (Z.compare_spec a b);
      [apply Z.compare_eq_iff | apply Z.compare_lt_iff | apply Z.compare_gt_iff]; nia.
  - symmetry. apply Z.compare_lt_iff.
    assert (2 ^ Zdigits2 a <= 2 ^ (Zdigits2 b - 1)) by (apply Z.pow_le_mono_r; lia). lia.
  - symmetry. apply Z.compare_gt_iff.
    assert (2 ^ Zdigits2 b <= 2 ^ (Zdigits2 a - 1)) by (apply Z.pow_le_mono_r; lia). lia.
Qed.

Lemma shr_1_m r : 0 <= shr_m r -> shr_m (shr_1 r) = shr_m r / 2.
Proof.
  destruct r as [m rr ss]. cbn [shr_m]. intros Hm.
  destruct m as [|p|p]; try lia.
  - reflexivity.
  - destruct p; cbn [shr_1 shr_m].
    + rewrite Pos2Z.inj_xI. apply (Z.div_unique _ _ _ 1); lia.
    + rewrite Pos2Z.inj_xO. apply (Z.div_unique _ _ _ 0); lia.
    + reflexivity.
Qed.

Lemma iter_shr_m k r :
  0 <= shr_m r -> shr_m (Nat.iter k shr_1 r) = shr_m r / 2 ^ Z.of_nat k.
Proof.
  intros Hr. induction k.
  - simpl. symmetry. apply Z.div_1_r.
  - rewrite Nat.iter_succ, shr_1_m.
    + rewrite IHk, Nat2Z.inj_succ, Z.pow_succ_r by lia.
      rewrite Z.div_div by (try apply Z.pow_pos_nonneg; lia).
      f_equal. lia.
    + rewrite IHk. apply Z.div_pos; [assumption|apply Z.pow_pos_nonneg; lia].
Qed.

Lemma round_nearest_even_bounds m l :
  m <= round_nearest_even m l <= m + 1.
Proof.
  destruct l as [|[]]; cbn [round_nearest_even]; try lia.
  destruct (Z.even m); lia.
Qed.

(** An integer of 54 bits or more rounds to a Number with a positive
    exponent, or to an infinity. *)
Lemma binary_round_big s (p : positive) :
  2 ^ 53 <= Zpos p ->
  binary_round JS.prec JS.emax s p 0 = S754_infinity s \/
  exists m e, 1 <= e /\ binary_round JS.prec JS.emax s p 0 = S754_finite s m e.
Proof.
  intros Hp.
  pose proof (Zdigits2_bounds (Zpos p) ltac:(lia)) as [Lp Up].
  assert (Hd : 54 <= Zdigits2 (Zpos p)).
  { destruct (Z_le_gt_dec 54 (Zdigits2 (Zpos p))) as [|Hlt]; [assumption|].
    assert (2 ^ Zdigits2 (Zpos p) <= 2 ^ 53) by (apply Z.pow_le_mono_r; lia). lia. }
  unfold binary_round.
  change (Zpos (digits2_pos p)) with (Zdigits2 (Zpos p)).
  set (d := Zdigits2 (Zpos p)) in *.
  rewrite Z.add_0_r, fexp_small by lia.
  unfold shl_align. rewrite Z.sub_0_r.
  destruct (d - 53) as [|k|k] eqn:Hk; try lia.
  unfold binary_round_aux, shr_fexp. fold d.
  rewrite Z.add_0_r, fexp_small, Z.sub_0_r, Hk by lia.
  cbn [shr shr_record_of_loc]. rewrite iter_pos_nat.
  set (r1 := Nat.iter (Pos.to_nat k) shr_1 (Build_shr_record (Zpos p) false false)).
  assert (Hm1 : shr_m r1 = Zpos p / 2 ^ Zpos k).
  { unfold r1. rewrite iter_shr_m by (cbn; lia). cbn [shr_m].
    rewrite positive_nat_Z. reflexivity. }
  assert (Hb1 : 2 ^ 52 <= shr_m r1 < 2 ^ 53).
  { rewrite Hm1. assert (0 < 2 ^ Zpos k) by (apply Z.pow_pos_nonneg; lia).
    replace (d - 1) with (52 + Zpos k) in Lp by lia.
    replace d with (53 + Zpos k) in Up by lia.
    rewrite Z.pow_add_r in Lp, Up by lia.
    split.
    - apply Z.div_le_lower_bound; lia.
    - apply Z.div_lt_upper_bound; lia. }
  pose proof (round_nearest_even_bounds (shr_m r1) (loc_of_shr_record r1)) as Hb2.
  set (m2 := round_nearest_even (shr_m r1) (loc_of_shr_record r1)) in *.
  rewrite Z.add_0_l.
  destruct (Z.eq_dec m2 (2 ^ 53)) as [He|Hne].
  - rewrite He. change (Zdigits2 (2 ^ 53)) with 54.
    rewrite fexp_small by lia.
    replace (54 + Zpos k - 53 - Zpos k) with 1 by lia.
    cbn [shr iter_pos]. change (shr_m (shr_1 _)) with (2 ^ 52).
    change (2 ^ 52) with (Zpos (Z.to_pos (2 ^ 52))) at 1. cbv iota.
    destruct (Z.pos k + 1 <=? JS.emax - JS.prec).
    + right. eexists _, _. split; [|reflexivity]. lia.
    + left. reflexivity.
  - assert (Hd2 : Zdigits2 m2 = 53) by (apply Zdigits2_unique; lia).
    rewrite Hd2, fexp_small by lia.
    replace (53 + Zpos k - 53 - Zpos k) with 0 by lia.
    cbn [shr shr_m].
    destruct m2 as [|q|q] eqn:Hq; try lia.
    destruct (Z.pos k <=? JS.emax - JS.prec).
    + right. eexists _, _. split; [|reflexivity]. lia.
    + left. reflexivity.
Qed.

(** ** The range check in terms of the integer read *)

(** The Number [parseInt] makes of the integer [n >= 0] read with sign
    [neg]. *)
Lemma of_Z_cases neg n :
  0 < n ->
  (n < 2 ^ 53 /\ JS.of_Z (cond_Zopp neg n) = canon neg n) \/
  (2 ^ 53 <= n /\
   (JS.of_Z (cond_Zopp neg n) = S754_infinity neg \/
    exists m e, 1 <= e /\ JS.of_Z (cond_Zopp neg n) = S754_finite neg m e)).
Proof.
  intros Hn. destruct (Z_lt_ge_dec n (2 ^ 53)) as [Hs|Hb].
  - left. split; [assumption|].
    destruct neg; cbn [cond_Zopp]; [apply of_Z_canon_neg | apply of_Z_canon]; lia.
  - right. split; [lia|].
    destruct n as [|p|p]; try lia.
    destruct neg; cbn [cond_Zopp Z.opp]; apply binary_round_big; lia.
Qed.

Section IntegerBounds.
Variables (neg : bool) (n : Z).
Hypothesis Hn : 0 <= n.

Let x : JS.number :=
  if n =? 0 then S754_zero neg else JS.of_Z (cond_Zopp neg n).

Lemma ge_int_0 : JS.ge x num_0 = (0 <=? cond_Zopp neg n).
Proof.
  unfold x. destruct (Z.eqb_spec n 0) as [->|Hne].
  - destruct neg; reflexivity.
  - destruct (of_Z_cases neg n ltac:(lia)) as [[Hs ->]|[Hb [->|(m & e & He & ->)]]];
      destruct neg; cbn; symmetry;
      try (apply Z.leb_le; lia); try (apply Z.leb_gt; lia).
Qed.

Lemma le_int_inf : JS.le x JS.Infinity = true.
Proof.
  unfold x. destruct (Z.eqb_spec n 0) as [->|Hne].
  - reflexivity.
  - destruct (of_Z_cases neg n ltac:(lia)) as [[Hs ->]|[Hb [->|(m & e & He & ->)]]];
      destruct neg; reflexivity.
Qed.

Variable c : Z.
Hypothesis Hc : 0 < c < 2 ^ 53.

Lemma ge_int : JS.ge x (JS.of_Z c) = (c <=? cond_Zopp neg n).
Proof.
  unfold x. rewrite (of_Z_canon c) by assumption.
  pose proof (Zdigits2_le_53 c Hc).
  destruct (Z.eqb_spec n 0) as [->|Hne].
  - cbn. symmetry. destruct neg; apply Z.leb_gt; cbn; lia.
  - destruct (of_Z_cases neg n ltac:(lia)) as [[Hs ->]|[Hb [->|(m & e & He & ->)]]].
    + destruct neg.
      * cbn. symmetry. apply Z.leb_gt. lia.
      * unfold JS.ge. rewrite compare_canon by lia. cbn [cond_Zopp].
        destruct (Z.compare_spec n c); symmetry;
          try (apply Z.leb_le; lia); try (apply Z.leb_gt; lia).
    + destruct neg; cbn; symmetry;
        try (apply Z.leb_le; lia); try (apply Z.leb_gt; lia).
    + destruct neg; unfold JS.ge, canon, SFcompare; cbn [cond_Zopp]; symmetry.
      * apply Z.leb_gt. lia.
      * replace (e ?= Zdigits2 c - 53) with Gt by (symmetry; apply Z.compare_gt_iff; lia).
        apply Z.leb_le. lia.
Qed.

Lemma le_int : JS.le x (JS.of_Z c) = (cond_Zopp neg n <=? c).
Proof.
  unfold x. rewrite (of_Z_canon c) by assumption.
  pose proof (Zdigits2_le_53 c Hc).
  destruct (Z.eqb_spec n 0) as [->|Hne].
  - cbn. symmetry. destruct neg; apply Z.leb_le; cbn; lia.
  - destruct (of_Z_cases neg n ltac:(lia)) as [[Hs ->]|[Hb [->|(m & e & He & ->)]]].
    + destruct neg.
      * cbn. symmetry. apply Z.leb_le. lia.
      * unfold JS.le. rewrite compare_canon by lia. cbn [cond_Zopp].
        destruct (Z.compare_spec c n); symmetry;
          try (apply Z.leb_le; lia); try (apply Z.leb_gt; lia).
    + destruct neg; cbn; symmetry;
        try (apply Z.leb_le; lia); try (apply Z.leb_gt; lia).
    + destruct neg; unfold JS.le, canon, SFcompare; cbn [cond_Zopp]; symmetry.
      * apply Z.leb_le. lia.
      * replace (Zdigits2 c - 53 ?= e) with Lt by (symmetry; apply Z.compare_lt_iff; lia).
        apply Z.leb_gt. lia.
Qed.
End IntegerBounds.

Lemma digit_value_range R c v : JS.digit_value R c = Some v -> 0 <= v < R.
Proof.
  unfold JS.digit_value.
  set (k := Z.of_N (N_of_ascii c)).
  destruct ((48 <=? k) && (k <=? 57)) eqn:E1;
    [|destruct ((97 <=? k) && (k <=? 122)) eqn:E2;
      [|destruct ((65 <=? k) && (k <=? 90)) eqn:E3]].
  all: match goal with |- (if ?a <? ?b then _ else _) = _ -> _ =>
         destruct (Z.ltb_spec a b); [|discriminate] end.
  all: intros [= <-]; try lia.
Qed.

Lemma span_digits_range R s :
  Forall (fun d => 0 <= d < R) (fst (JS.span_digits R s)).
Proof.
  induction s as [|c s IH]; cbn [JS.span_digits fst]; [constructor|].
  destruct (JS.digit_value R c) as [v|] eqn:Hv; [|constructor].
  destruct (JS.span_digits R s) as [ds rest]. cbn [fst] in *.
  constructor; [eapply digit_value_range; eassumption|assumption].
Qed.

Lemma digits_value_nonneg R ds :
  0 <= R -> Forall (fun d => 0 <= d < R) ds -> 0 <= JS.digits_value R ds.
Proof.
  intros HR. unfold JS.digits_value.
  assert (G : forall acc, 0 <= acc -> Forall (fun d => 0 <= d < R) ds ->
                          0 <= fold_left (fun a d => a * R + d) ds acc).
  { induction ds as [|d ds IH]; intros acc Hacc HF; cbn [fold_left]; [assumption|].
    inversion HF; subst. apply IH; [nia|assumption]. }
  apply G. lia.
Qed.

Lemma scan_int_nonneg text neg n : JS.scan_int text = Some (neg, n) -> 0 <= n.
Proof.
  unfold JS.scan_int.
  destruct (JS.strip_sign (JS.trim_start text)) as [sg S].
  set (RS := match S with
             | String c0 (String c1 S') =>
                 if Ascii.eqb c0 "0" && (Ascii.eqb c1 "x" || Ascii.eqb c1 "X")
                 then (16, S') else (10, S)
             | _ => (10, S)
             end).
  assert (HR : fst RS = 10 \/ fst RS = 16).
  { unfold RS. destruct S as [|c0 [|c1 S']]; auto.
    destruct (Ascii.eqb c0 "0" && (Ascii.eqb c1 "x" || Ascii.eqb c1 "X")); auto. }
  destruct RS as [R S0]. cbn [fst] in HR.
  pose proof (span_digits_range R S0) as HF.
  destruct (fst (JS.span_digits R S0)) as [|d ds] eqn:Hds; [discriminate|].
  intros [= _ <-]. apply digits_value_nonneg; [lia|assumption].
Qed.

(** The range check passes exactly when an integer is read and it lies
    between the bounds. *)
Lemma amountCondition_scan_int f lo hi :
  0 < hi < 2 ^ 53 ->
  (lo = 0 \/ 0 < lo < 2 ^ 53) ->
  amountCondition f (Some (JS.of_Z lo)) (Some (JS.of_Z hi)) =
  match JS.scan_int (value f) with
  | Some (neg, n) => (lo <=? cond_Zopp neg n) && (cond_Zopp neg n <=? hi)
  | None => false
  end.
Proof.
  intros Hhi Hlo. unfold amountCondition, JS.parseInt.
  destruct (JS.scan_int (value f)) as [[neg n]|] eqn:Hs; [|reflexivity].
  pose proof (scan_int_nonneg _ _ _ Hs) as Hn.
  rewrite (le_int neg n Hn hi Hhi).
  destruct Hlo as [->|Hlo].
  - change (JS.of_Z 0) with num_0. rewrite (ge_int_0 neg n Hn).
    destruct (_ && _); reflexivity.
  - rewrite (ge_int neg n Hn lo Hlo). destruct (_ && _); reflexivity.
Qed.

Lemma salaryCondition_scan_int f :
  salaryCondition f =
  match JS.scan_int (value f) with
  | Some (neg, n) => 0 <=? cond_Zopp neg n
  | None => false
  end.
Proof.
  unfold salaryCondition, amountCondition, JS.parseInt.
  destruct (JS.scan_int (value f)) as [[neg n]|] eqn:Hs; [|reflexivity].
  pose proof (scan_int_nonneg _ _ _ Hs) as Hn.
  rewrite (ge_int_0 neg n Hn), (le_int_inf neg n Hn).
  destruct (0 <=? _); reflexivity.
Qed.

(** ** The text of a whole Number *)

Lemma is_digit_digit_char d : 0 <= d < 10 -> is_digit (JS.digit_char d) = true.
Proof.
  intros H.
  assert (d = 0 \/ d = 1 \/ d = 2 \/ d = 3 \/ d = 4 \/ d = 5 \/ d = 6 \/ d = 7 \/
          d = 8 \/ d = 9) as Hd by lia.
  repeat (destruct Hd as [->|Hd]; [reflexivity|]). subst d. reflexivity.
Qed.

Lemma digit_char_nonzero d : 0 < d < 10 -> Ascii.eqb (JS.digit_char d) "0" = false.
Proof.
  intros H.
  assert (d = 1 \/ d = 2 \/ d = 3 \/ d = 4 \/ d = 5 \/ d = 6 \/ d = 7 \/
          d = 8 \/ d = 9) as Hd by lia.
  repeat (destruct Hd as [->|Hd]; [reflexivity|]). subst d. reflexivity.
Qed.

Lemma all_digits_app s t : all_digits (s ++ t) = all_digits s && all_digits t.
Proof.
  induction s as [|c s IH]; cbn [append all_digits]; [reflexivity|].
  rewrite IH. apply andb_assoc.
Qed.

Lemma all_digits_zeros k : all_digits (JS.zeros k) = true.
Proof. induction k; cbn; auto. Qed.

Lemma append_snoc s c t : (s ++ String c "") ++ t = s ++ String c t.
Proof. induction s as [|a s IH]; cbn [append]; [reflexivity|]. rewrite IH. reflexivity. Qed.

(** With enough fuel the digits of [n > 0] start with a digit that is not
    zero. *)
Lemma digits_aux_plain fuel : forall n acc,
  0 < n < 2 ^ Z.of_nat fuel ->
  exists c rest,
    JS.digits_aux fuel n acc = String c (rest ++ acc) /\
    is_digit c = true /\ Ascii.eqb c "0" = false /\ all_digits rest = true.
Proof.
  induction fuel as [|fuel IH]; intros n acc Hn.
  - simpl in Hn. lia.
  - cbn [JS.digits_aux].
    rewrite Nat2Z.inj_succ, Z.pow_succ_r in Hn by lia.
    destruct (Z.ltb_spec n 10) as [Hlt|Hge].
    + exists (JS.digit_char (n mod 10)), EmptyString.
      rewrite Z.mod_small by lia.
      repeat split; [apply is_digit_digit_char | apply digit_char_nonzero]; lia.
    + destruct (IH (n / 10) (String (JS.digit_char (n mod 10)) acc)) as (c & rest & E & Hc & Hz & Hr).
      { split; [apply Z.div_str_pos; lia|].
        apply Z.div_lt_upper_bound; lia. }
      exists c, (rest ++ String (JS.digit_char (n mod 10)) "").
      rewrite E. repeat split; auto.
      * f_equal. rewrite append_snoc. reflexivity.
      * rewrite all_digits_app, Hr. cbn.
        rewrite is_digit_digit_char by (apply Z.mod_pos_bound; lia). reflexivity.
Qed.

Lemma decimal_plain s :
  0 < s ->
  exists c rest, JS.decimal s = String c rest /\
                 is_digit c = true /\ Ascii.eqb c "0" = false /\ all_digits rest = true.
Proof.
  intros Hs. unfold JS.decimal.
  destruct (digits_aux_plain (S (Z.to_nat (Z.log2 s))) s EmptyString) as (c & rest & E & H).
  { split; [assumption|].
    rewrite Nat2Z.inj_succ, Z2Nat.id by apply Z.log2_nonneg.
    apply Z.log2_spec. assumption. }
  exists c, rest. split; [|assumption].
  rewrite E. f_equal. clear. induction rest; cbn; congruence.
Qed.

Lemma plain_numeral_decimal_zeros s k :
  0 < s -> plain_numeral (JS.decimal s ++ JS.zeros k) = true.
Proof.
  intros Hs. destruct (decimal_plain s Hs) as (c & rest & -> & Hc & Hz & Hr).
  cbn [append plain_numeral all_digits].
  rewrite Hc, Hz, all_digits_app, Hr, all_digits_zeros. reflexivity.
Qed.

Lemma number_eqb_refl x : JS.number_eqb x x = true.
Proof.
  destruct x as [s|s| |s m e]; cbn; try apply Bool.eqb_reflx; [reflexivity|].
  rewrite Bool.eqb_reflx, Pos.eqb_refl, Z.eqb_refl. reflexivity.
Qed.

Lemma magnitude_up_spec fuel : forall q n,
  0 < q < 2 ^ Z.of_nat fuel ->
  let D := JS.magnitude_up fuel q n in
  n <= D /\ 10 ^ (D - n) <= q < 10 ^ (D - n + 1).
Proof.
  induction fuel as [|fuel IH]; intros q n Hq.
  - simpl in Hq. lia.
  - cbn [JS.magnitude_up].
    rewrite Nat2Z.inj_succ, Z.pow_succ_r in Hq by lia.
    destruct (Z.ltb_spec q 10) as [Hlt|Hge]; cbv zeta.
    + rewrite Z.sub_diag. cbn. lia.
    + destruct (IH (q / 10) (n + 1)) as (H1 & H2 & H3).
      { split; [apply Z.div_str_pos; lia|].
        apply Z.div_lt_upper_bound; lia. }
      set (D := JS.magnitude_up fuel (q / 10) (n + 1)) in *.
      split; [lia|].
      replace (D - n) with (Z.succ (D - (n + 1))) by lia.
      replace (Z.succ (D - (n + 1)) + 1) with (Z.succ (D - (n + 1) + 1)) by lia.
      rewrite !Z.pow_succ_r by lia.
      set (P := 10 ^ (D - (n + 1))) in *. set (Q := 10 ^ (D - (n + 1) + 1)) in *.
      clearbody D P Q. clear IH. Z.div_mod_to_equations. lia.
Qed.

Lemma digits_at_some x a b n0 k n s :
  JS.digits_at x a b n0 k = Some (n, s) ->
  10 ^ (k - 1) <= s /\ (n = n0 \/ n = n0 + 1).
Proof.
  unfold JS.digits_at.
  set (lo := a * 10 ^ Z.max 0 (k - n0) / (b * 10 ^ Z.max 0 (n0 - k))).
  set (oklo := (10 ^ (k - 1) <=? lo) && JS.number_eqb (JS.of_decimal false lo (n0 - k)) x).
  set (okhi := (10 ^ (k - 1) <=? lo + 1) &&
               JS.number_eqb (JS.of_decimal false (lo + 1) (n0 - k)) x).
  assert (Hlo : oklo = true -> 10 ^ (k - 1) <= lo).
  { unfold oklo. intros H. apply andb_prop in H. apply Z.leb_le. tauto. }
  assert (Hhi : okhi = true -> 10 ^ (k - 1) <= lo + 1).
  { unfold okhi. intros H. apply andb_prop in H. apply Z.leb_le. tauto. }
  destruct oklo; destruct (lo + 1 =? 10 ^ k);
    try destruct (JS.number_eqb (JS.of_decimal false (10 ^ (k - 1)) (n0 + 1 - k)) x);
    try destruct okhi;
    try destruct (_ ?= _); try destruct (Z.even lo);
    intros [= <- <-]; try (split; [auto|]); auto; try lia.
Qed.

Lemma shortest_digits_first x a b n0 ks k0 :
  StronglySorted Z.le ks ->
  In k0 ks ->
  JS.digits_at x a b n0 k0 <> None ->
  exists n k s, JS.shortest_digits x a b n0 ks = Some (n, k, s) /\
                k <= k0 /\ In k ks /\ JS.digits_at x a b n0 k = Some (n, s).
Proof.
  induction ks as [|k ks IH]; intros Hsort Hin Hk0; [destruct Hin|].
  inversion Hsort as [|? ? Hs' Hall]; subst.
  cbn [JS.shortest_digits].
  destruct (JS.digits_at x a b n0 k) as [[n s]|] eqn:E.
  - exists n, k, s. repeat split; auto; [|left; reflexivity].
    destruct Hin as [->|Hin]; [lia|].
    rewrite Forall_forall in Hall. apply Hall. assumption.
  - destruct Hin as [->|Hin]; [congruence|].
    destruct (IH Hs' Hin Hk0) as (n & k' & s & H1 & H2 & H3 & H4).
    exists n, k', s. repeat split; auto. right. assumption.
Qed.

Lemma lengths_sorted : StronglySorted Z.le JS.lengths.
Proof.
  unfold JS.lengths.
  repeat (constructor; [|repeat (constructor; [lia|]); constructor]).
  constructor.
Qed.

Lemma lengths_range k : In k JS.lengths <-> 1 <= k <= 17.
Proof.
  unfold JS.lengths. cbn [In]. lia.
Qed.

(** A whole Number below 2^53 prints as a plain decimal numeral. *)
Lemma toString_of_Z_plain N :
  0 <= N < 2 ^ 53 -> plain_numeral (JS.toString (JS.of_Z N)) = true.
Proof.
  intros HN. destruct (Z.eq_dec N 0) as [->|Hne]; [reflexivity|].
  assert (HN' : 0 < N < 2 ^ 53) by lia.
  pose proof (of_Z_canon N HN') as Hx.
  pose proof (Zdigits2_le_53 N HN') as Hd53.
  pose proof (Zdigits2_pos N ltac:(lia)) as Hd0.
  pose proof (canon_mantissa N HN') as Hm.
  rewrite Hx. unfold canon in *. cbn [JS.toString append].
  set (m := Z.to_pos (N * 2 ^ (53 - Zdigits2 N))) in *.
  set (e := Zdigits2 N - 53) in *.
  unfold JS.positive_to_string.
  set (a := match e with Z.neg _ => Z.pos m | _ => Z.pos m * 2 ^ e end).
  set (b := match e with Z.neg k => 2 ^ Z.pos k | _ => 1 end).
  assert (Hab : 0 < b /\ a = N * b).
  { unfold a, b. destruct e as [|k|k] eqn:He; try lia.
    - rewrite Hm. replace (53 - Zdigits2 N) with 0 by lia. cbn. lia.
    - rewrite Hm. replace (53 - Zdigits2 N) with (Z.pos k) by lia.
      split; [apply Z.pow_pos_nonneg; lia|reflexivity]. }
  destruct Hab as [Hb Ha].
  (* the decimal magnitude is the number of decimal digits of N *)
  set (D := JS.magnitude10 a b).
  assert (HD : 1 <= D /\ 10 ^ (D - 1) <= N < 10 ^ D).
  { unfold D, JS.magnitude10.
    replace (b <=? a) with true by (symmetry; apply Z.leb_le; nia).
    assert (Hq : a / b = N) by (rewrite Ha; apply Z.div_mul; lia).
    rewrite Hq.
    destruct (magnitude_up_spec (S (Z.to_nat (Z.log2 a))) N 1) as (H1 & H2 & H3).
    { split; [lia|].
      rewrite Nat2Z.inj_succ, Z2Nat.id by apply Z.log2_nonneg.
      pose proof (Z.log2_spec a ltac:(nia)). nia. }
    split; [assumption|].
    replace (JS.magnitude_up (S (Z.to_nat (Z.log2 a))) N 1 - 1 + 1)
      with (JS.magnitude_up (S (Z.to_nat (Z.log2 a))) N 1) in H3 by lia.
    auto. }
  destruct HD as (HD1 & HDlo & HDhi).
  assert (HD16 : D <= 16).
  { destruct (Z_le_gt_dec D 16) as [|Hgt]; [assumption|].
    assert (10 ^ 16 <= 10 ^ (D - 1)) by (apply Z.pow_le_mono_r; lia).
    assert (2 ^ 53 < 10 ^ 16) by reflexivity. lia. }
  (* the search succeeds at length D at the latest *)
  assert (Hat : JS.digits_at (S754_finite false m e) a b D D <> None).
  { unfold JS.digits_at.
    rewrite Z.sub_diag. cbn [Z.max Z.pow]. rewrite !Z.mul_1_r.
    replace (a / b) with N by (rewrite Ha; symmetry; apply Z.div_mul; lia).
    replace (10 ^ (D - 1) <=? N) with true by (symmetry; apply Z.leb_le; lia).
    assert (Hdec : JS.of_decimal false N 0 = S754_finite false m e).
    { unfold JS.of_decimal.
      replace (N =? 0) with false by (symmetry; apply Z.eqb_neq; lia).
      cbn [Z.leb Z.compare cond_Zopp Z.pow]. rewrite Z.mul_1_r. exact Hx. }
    rewrite Hdec, number_eqb_refl. cbn [andb].
    repeat match goal with
           | |- context [if ?c then _ else _] => destruct c
           | |- context [match ?c with Eq => _ | Lt => _ | Gt => _ end] => destruct c
           end; discriminate. }
  destruct (shortest_digits_first _ a b D JS.lengths D lengths_sorted
              ltac:(apply lengths_range; lia) Hat)
    as (n & k & s & -> & Hk & Hin & Hks).
  apply lengths_range in Hin.
  destruct (digits_at_some _ _ _ _ _ _ _ Hks) as [Hs Hn].
  assert (0 < 10 ^ (k - 1)) by (apply Z.pow_pos_nonneg; lia).
  replace ((k <=? n) && (n <=? 21)) with true
    by (symmetry; apply andb_true_intro; split; apply Z.leb_le; lia).
  apply plain_numeral_decimal_zeros. lia.
Qed.

(** Splitting a whole pence amount into pounds and pennies is exact. *)
Lemma rem_100_exact a :
  0 <= a < 2 ^ 53 -> JS.rem (JS.of_Z a) num_100 = JS.of_Z (a mod 100).
Proof.
  intros Ha. destruct (Z.eq_dec a 0) as [->|Hne]; [reflexivity|].
  apply rem_exact; [lia|]. split; reflexivity.
Qed.

Lemma sub_exact_0 a p :
  0 <= p <= a -> a < 2 ^ 53 -> JS.sub (JS.of_Z a) (JS.of_Z p) = JS.of_Z (a - p).
Proof.
  intros Hp Ha. destruct (Z.eq_dec p 0) as [->|Hp0].
  - rewrite Z.sub_0_r. destruct (Z.eq_dec a 0) as [->|Ha0]; [reflexivity|].
    rewrite of_Z_canon by lia. reflexivity.
  - apply sub_exact; lia.
Qed.

Lemma div_exact_0 m q :
  0 < m < 2 ^ 53 -> 0 <= q -> m * q < 2 ^ 53 ->
  JS.div (JS.of_Z (m * q)) (JS.of_Z m) = JS.of_Z q.
Proof.
  intros Hm Hq Hc. destruct (Z.eq_dec q 0) as [->|Hq0].
  - rewrite Z.mul_0_r. rewrite (of_Z_canon m) by lia. reflexivity.
  - apply div_exact; lia.
Qed.

Lemma pounds_exact a :
  0 <= a < 2 ^ 53 ->
  JS.div (JS.sub (JS.of_Z a) (JS.rem (JS.of_Z a) num_100)) num_100 = JS.of_Z (a / 100).
Proof.
  intros Ha. rewrite rem_100_exact by assumption.
  pose proof (Z.mod_pos_bound a 100 ltac:(lia)).
  pose proof (Z.div_mod a 100 ltac:(lia)).
  rewrite sub_exact_0 by lia.
  replace (a - a mod 100) with (100 * (a / 100)) by lia.
  apply div_exact_0; lia.
Qed.

Lemma rightTruncate_pennies r :
  0 <= r < 100 -> rightTruncate (JS.of_Z r) 2 = pad2 r.
Proof.
  intros Hr.
  apply (Zrange_forallb
           (fun r => String.eqb (rightTruncate (JS.of_Z r) 2) (pad2 r)) 0 100) in Hr.
  - apply String.eqb_eq. assumption.
  - vm_compute. reflexivity.
Qed.

Lemma two_digits_pad2 r : 0 <= r < 100 -> two_digits (pad2 r) = true.
Proof.
  intros Hr. unfold pad2, two_digits.
  rewrite !is_digit_digit_char; [reflexivity| |].
  - apply Z.mod_pos_bound; lia.
  - split; [apply Z.div_pos; lia|apply Z.div_lt_upper_bound; lia].
Qed.

(** ** The script: checks, workings and rendered fields *)

Lemma runValidation_true msg e : runValidation true msg e = (true, hide_error e).
Proof. destruct e; reflexivity. Qed.

Lemma runValidation_false msg e : runValidation false msg e = (false, show_error msg e).
Proof. destruct e; reflexivity. Qed.

Lemma calculate_result b s p errs :
  snd (calculate b s p errs) =
  if validated b s p then Some (render (compute b s p)) else None.
Proof.
  unfold calculate, validated.
  destruct (borrowCondition b);
    [rewrite runValidation_true | rewrite runValidation_false]; cbn [andb]; [|reflexivity].
  destruct (salaryCondition s);
    [rewrite runValidation_true | rewrite runValidation_false]; cbn [andb]; [|reflexivity].
  destruct (repayCondition p);
    [rewrite runValidation_true | rewrite runValidation_false]; reflexivity.
Qed.

Lemma totalCost_compute b s p :
  totalCost (compute b s p) =
  totalCost_of (JS.mul num_100 (JS.parseFloat (value b))).
Proof. reflexivity. Qed.

(** *** Reading the workings off [compute] *)

Lemma amountToBorrow_compute b s p :
  amountToBorrow (compute b s p) = JS.mul num_100 (JS.parseFloat (value b)).
Proof. reflexivity. Qed.

Lemma adminFee_compute b s p :
  adminFee (compute b s p) =
  JS.ceil (JS.mul num_0_05 (JS.mul num_100 (JS.parseFloat (value b)))).
Proof. reflexivity. Qed.

Lemma monthlyAmountRepaid_compute b s p :
  monthlyAmountRepaid (compute b s p) =
  JS.ceil (JS.mul (JS.div (JS.parseFloat (value p)) num_100)
                  (JS.mul num_100 (JS.parseFloat (value s)))).
Proof. reflexivity. Qed.

Lemma number_eqb_eq x y : JS.number_eqb x y = true -> x = y.
Proof.
  destruct x as [s|s| |s m e], y as [t|t| |t n f]; cbn; try discriminate;
    try (intros H; apply Bool.eqb_prop in H; congruence); [reflexivity|].
  intros H. apply andb_prop in H. destruct H as [H He].
  apply andb_prop in H. destruct H as [Hs Hm].
  apply Bool.eqb_prop in Hs. apply Pos.eqb_eq in Hm. apply Z.eqb_eq in He.
  congruence.
Qed.

(** *** Text without a number *)

Lemma digit_value_10_is_digit c v : JS.digit_value 10 c = Some v -> is_digit c = true.
Proof.
  unfold JS.digit_value, is_digit.
  set (k := N_of_ascii c).
  destruct ((48 <=? Z.of_N k) && (Z.of_N k <=? 57)) eqn:E1.
  - intros _. apply andb_prop in E1. destruct E1 as [H1 H2].
    apply Z.leb_le in H1, H2.
    apply andb_true_intro. split; apply N.leb_le; lia.
  - destruct ((97 <=? Z.of_N k) && (Z.of_N k <=? 122)) eqn:E2;
      [|destruct ((65 <=? Z.of_N k) && (Z.of_N k <=? 90)) eqn:E3].
    + apply andb_prop in E2. destruct E2 as [H1 H2]. apply Z.leb_le in H1, H2.
      destruct (Z.ltb_spec (Z.of_N k - 87) 10); [lia|discriminate].
    + apply andb_prop in E3. destruct E3 as [H1 H2]. apply Z.leb_le in H1, H2.
      destruct (Z.ltb_spec (Z.of_N k - 55) 10); [lia|discriminate].
    + rewrite Z.ltb_irrefl. discriminate.
Qed.

Lemma no_digit_trim_start s : no_digit s = true -> no_digit (JS.trim_start s) = true.
Proof.
  induction s as [|c s IH]; cbn [JS.trim_start]; [auto|].
  intros H. destruct (JS.is_white_space c); [|assumption].
  cbn [no_digit] in H. apply andb_prop in H. apply IH. tauto.
Qed.

Lemma no_digit_strip_sign s :
  no_digit s = true -> no_digit (snd (JS.strip_sign s)) = true.
Proof.
  destruct s as [|c s]; cbn [JS.strip_sign]; [auto|].
  intros H. pose proof H as H'. cbn [no_digit] in H'. apply andb_prop in H'.
  destruct (Ascii.eqb c "-"); [cbn; tauto|].
  destruct (Ascii.eqb c "+"); [cbn; tauto|]. assumption.
Qed.

Lemma span_digits_no_digit s :
  no_digit s = true -> fst (JS.span_digits 10 s) = [].
Proof.
  destruct s as [|c s]; cbn [JS.span_digits no_digit]; [reflexivity|].
  intros H. apply andb_prop in H. destruct H as [Hc _].
  destruct (JS.digit_value 10 c) as [v|] eqn:Hv; [|reflexivity].
  apply digit_value_10_is_digit in Hv. rewrite Hv in Hc. discriminate.
Qed.

Lemma scan_int_no_digit text : no_digit text = true -> JS.scan_int text = None.
Proof.
  intros H. apply no_digit_trim_start, no_digit_strip_sign in H.
  unfold JS.scan_int.
  destruct (JS.strip_sign (JS.trim_start text)) as [neg S]. cbn [snd] in H.
  assert (HR : match S with
               | String c0 (String c1 S') =>
                   if Ascii.eqb c0 "0" && (Ascii.eqb c1 "x" || Ascii.eqb c1 "X")
                   then (16, S') else (10, S)
               | _ => (10, S)
               end = (10, S)).
  { destruct S as [|c0 [|c1 S']]; try reflexivity.
    destruct (Ascii.eqb_spec c0 "0") as [->|]; [discriminate H|reflexivity]. }
  rewrite HR, (span_digits_no_digit S H). reflexivity.
Qed.

Lemma parseInt_NaN_scan text : JS.parseInt text = JS.NaN <-> JS.scan_int text = None.
Proof.
  unfold JS.parseInt. destruct (JS.scan_int text) as [[neg n]|] eqn:E.
  - split; [|discriminate]. intros H. exfalso.
    pose proof (scan_int_nonneg _ _ _ E) as Hn.
    destruct (Z.eqb_spec n 0) as [->|Hne]; [discriminate H|].
    destruct (of_Z_cases neg n ltac:(lia)) as [[_ Hc]|[_ [Hc|(m & e & _ & Hc)]]];
      rewrite Hc in H; discriminate H.
  - tauto.
Qed.

(** *** A monthly repayment of zero *)

Lemma rem_zero n s : JS.rem n (S754_zero s) = JS.NaN.
Proof. destruct n; reflexivity. Qed.

Lemma calculate_returns b s p errs :
  validated b s p = true ->
  snd (calculate b s p errs) = Some (render (compute b s p)).
Proof. intros H. rewrite calculate_result, H. reflexivity. Qed.

(** *** The repayment schedule *)

Lemma totalCost_of_cases a :
  totalCost_of a = JS.of_Z 800000 \/ totalCost_of a = JS.of_Z 850000 \/
  totalCost_of a = JS.of_Z 900000.
Proof.
  unfold totalCost_of.
  destruct (JS.gt a (JS.of_Z 640000)), (JS.gt a (JS.of_Z 720000));
    vm_compute; auto.
Qed.

Lemma gt_of_Z_pos m : JS.gt (JS.of_Z m) num_0 = true -> 0 < m.
Proof.
  intros H. destruct (Z_lt_ge_dec 0 m) as [|Hle]; [assumption|exfalso].
  destruct (Z.eq_dec m 0) as [->|Hne]; [discriminate H|].
  replace m with (cond_Zopp true (- m)) in H by (cbn; lia).
  destruct (of_Z_cases true (- m) ltac:(lia)) as [[_ Hc]|[_ [Hc|(k & e & _ & Hc)]]];
    rewrite Hc in H; discriminate H.
Qed.

(** A positive result of [Math.ceil] is a whole number or infinite. *)
Lemma ceil_positive y :
  JS.gt (JS.ceil y) num_0 = true ->
  JS.ceil y = JS.Infinity \/ exists m, 0 < m /\ JS.ceil y = JS.of_Z m.
Proof.
  destruct y as [s|s| |s m e]; cbn [JS.ceil].
  - destruct s; discriminate.
  - destruct s; [discriminate|]. left. reflexivity.
  - discriminate.
  - set (q := match e with
              | Z.neg k => - (- (if s then Z.neg m else Z.pos m) / 2 ^ Z.pos k)
              | _ => (if s then Z.neg m else Z.pos m) * 2 ^ e
              end).
    destruct (q =? 0); [destruct s; discriminate|].
    intros H. right. exists q. split; [apply gt_of_Z_pos; exact H|reflexivity].
Qed.

(** With an infinite monthly repayment the whole cost is left for the last
    month, which is the only one. *)
Lemma schedule_infinite a :
  JS.rem (totalCost_of a) JS.Infinity = totalCost_of a /\
  JS.add num_1 (JS.ceil (JS.div (JS.sub (totalCost_of a) (totalCost_of a)) JS.Infinity)) =
  JS.of_Z 1.
Proof.
  destruct (totalCost_of_cases a) as [E|[E|E]]; rewrite E; vm_compute; split; reflexivity.
Qed.

(** In whole pence the remainder and the number of instalments computed by
    the script are the integer ones. *)
Lemma schedule_exact T m :
  0 < T < 2 ^ 52 -> 0 < m < 2 ^ 53 ->
  JS.rem (JS.of_Z T) (JS.of_Z m) = JS.of_Z (T mod m) /\
  JS.add num_1 (JS.ceil (JS.div (JS.sub (JS.of_Z T) (JS.of_Z (T mod m))) (JS.of_Z m))) =
  JS.of_Z (1 + (T - T mod m) / m).
Proof.
  intros HT Hm.
  assert (2 ^ 52 < 2 ^ 53) by reflexivity.
  pose proof (Z.mod_pos_bound T m ltac:(lia)) as Hr.
  pose proof (Z.mod_le T m ltac:(lia) ltac:(lia)) as Hr'.
  pose proof (Z.div_mod T m ltac:(lia)) as HTm.
  assert (Hq : 0 <= T / m) by (apply Z.div_pos; lia).
  split; [apply rem_exact; lia|].
  rewrite sub_exact_0 by lia.
  replace (T - T mod m) with (m * (T / m)) by lia.
  rewrite div_exact_0 by nia.
  replace (m * (T / m) / m) with (T / m)
    by (symmetry; rewrite Z.mul_comm; apply Z.div_mul; lia).
  destruct (Z.eq_dec (T / m) 0) as [->|Hq0]; [reflexivity|].
  rewrite ceil_of_Z by nia.
  unfold num_1. rewrite add_exact by nia. reflexivity.
Qed.

(** *** The amount borrowed is a number once the check has passed *)

Lemma shr_m_record_of_loc m l : shr_m (shr_record_of_loc m l) = m.
Proof. destruct l as [|[]]; reflexivity. Qed.

Lemma shr_nonneg r e n : 0 <= shr_m r -> 0 <= shr_m (fst (shr r e n)).
Proof.
  intros H. destruct n as [|k|k]; cbn [shr fst]; try assumption.
  rewrite iter_pos_nat, iter_shr_m by assumption.
  apply Z.div_pos; [assumption|apply Z.pow_pos_nonneg; lia].
Qed.

Lemma binary_round_aux_not_nan s m e l :
  0 <= m -> binary_round_aux JS.prec JS.emax s m e l <> S754_nan.
Proof.
  intros Hm. unfold binary_round_aux, shr_fexp.
  pose proof (shr_nonneg (shr_record_of_loc m l) e
                (fexp JS.prec JS.emax (Zdigits2 m + e) - e)) as H1.
  rewrite shr_m_record_of_loc in H1. specialize (H1 Hm).
  destruct (shr (shr_record_of_loc m l) e _) as [r1 e1]. cbn [fst] in H1.
  pose proof (round_nearest_even_bounds (shr_m r1) (loc_of_shr_record r1)) as Hb.
  set (m2 := round_nearest_even (shr_m r1) (loc_of_shr_record r1)) in *.
  pose proof (shr_nonneg (shr_record_of_loc m2 loc_Exact) e1
                (fexp JS.prec JS.emax (Zdigits2 m2 + e1) - e1)) as H2.
  rewrite shr_m_record_of_loc in H2. specialize (H2 ltac:(lia)).
  destruct (shr (shr_record_of_loc m2 loc_Exact) e1 _) as [r2 e2]. cbn [fst] in H2.
  destruct (shr_m r2) as [|q|q]; try lia; [discriminate|].
  destruct (e2 <=? JS.emax - JS.prec); discriminate.
Qed.

Lemma binary_normalize_not_nan m e sz :
  binary_normalize JS.prec JS.emax m e sz <> S754_nan.
Proof.
  destruct m as [|q|q]; cbn [binary_normalize]; [discriminate| |];
    unfold binary_round;
    destruct (shl_align q e _) as [mz ez]; apply binary_round_aux_not_nan; lia.
Qed.

Lemma of_decimal_not_nan neg m e : 0 <= m -> JS.of_decimal neg m e <> JS.NaN.
Proof.
  intros Hm. unfold JS.of_decimal.
  destruct (m =? 0); [discriminate|].
  destruct (Z.leb_spec 0 e) as [|He]; [apply binary_normalize_not_nan|].
  unfold SFdiv_core_binary. rewrite div_eucl_div_mod.
  apply binary_round_aux_not_nan.
  assert (0 < 10 ^ (- e)) by (apply Z.pow_pos_nonneg; lia).
  apply Z.div_pos; [|assumption].
  match goal with |- 0 <= match ?s with _ => _ end => destruct s eqn:Hs end; try lia.
  rewrite Z.shiftl_mul_pow2 by lia.
  assert (0 < 2 ^ Z.pos p) by (apply Z.pow_pos_nonneg; lia). nia.
Qed.

Lemma mul_100_not_nan x : x <> JS.NaN -> JS.mul num_100 x <> JS.NaN.
Proof.
  intros Hx. change num_100 with (S754_finite false 7036874417766400 (-46)).
  destruct x as [s|s| |s m e]; unfold JS.mul; cbn [SFmul]; try discriminate;
    [congruence|].
  apply binary_round_aux_not_nan. lia.
Qed.

Lemma scan_int_leading_digit text :
  JS.scan_int text <> None ->
  fst (JS.span_digits 10 (snd (JS.strip_sign (JS.trim_start text)))) <> [].
Proof.
  unfold JS.scan_int.
  destruct (JS.strip_sign (JS.trim_start text)) as [neg S]. cbn [snd].
  assert (Hplain : (let (R, S0) := (10, S) in
                    match fst (JS.span_digits R S0) with
                    | [] => None
                    | d :: ds => Some (neg, JS.digits_value R (d :: ds))
                    end) <> None -> fst (JS.span_digits 10 S) <> []).
  { cbv beta iota. intros H1 H2. apply H1. rewrite H2. reflexivity. }
  destruct S as [|c0 [|c1 S']]; try exact Hplain.
  destruct (Ascii.eqb_spec c0 "0") as [->|Hc0]; cbn [andb]; [|exact Hplain].
  intros _. cbn [JS.span_digits]. change (JS.digit_value 10 "0") with (Some 0).
  match goal with
  | |- fst (match Some 0 with Some d => let (ds, rest) := ?X in _ | None => _ end) <> [] =>
      destruct X
  end.
  cbn [fst]. discriminate.
Qed.

Lemma parseFloat_not_nan text :
  JS.scan_int text <> None -> JS.parseFloat text <> JS.NaN.
Proof.
  intros H. apply scan_int_leading_digit in H.
  unfold JS.parseFloat, JS.scan_float.
  destruct (JS.strip_sign (JS.trim_start text)) as [neg S]. cbn [snd] in H.
  destruct (JS.starts_with "Infinity" S); [discriminate|].
  pose proof (span_digits_range 10 S) as Hi.
  destruct (JS.span_digits 10 S) as [int_ds S1]. cbn [fst] in H, Hi.
  set (fr := match S1 with
             | String c S' => if Ascii.eqb c "." then JS.span_digits 10 S' else ([], S1)
             | EmptyString => ([], S1)
             end).
  assert (Hf : Forall (fun d => 0 <= d < 10) (fst fr)).
  { unfold fr. destruct S1 as [|c S']; [constructor|].
    destruct (Ascii.eqb c "."); [apply span_digits_range|constructor]. }
  destruct fr as [frac_ds S2]. cbn [fst] in Hf.
  destruct (int_ds ++ frac_ds)%list as [|d l] eqn:E.
  - apply app_eq_nil in E. tauto.
  - apply of_decimal_not_nan. apply digits_value_nonneg; [lia|].
    rewrite <- E. apply Forall_app. split; assumption.
Qed.

Lemma amountCondition_parses f mn mx :
  amountCondition f mn mx = true -> JS.scan_int (value f) <> None.
Proof.
  unfold amountCondition, JS.parseInt.
  destruct (JS.scan_int (value f)); [discriminate|]. cbn. discriminate.
Qed.

Lemma amountToBorrow_not_nan b s p :
  borrowCondition b = true -> amountToBorrow (compute b s p) <> JS.NaN.
Proof.
  intros H. rewrite amountToBorrow_compute.
  apply mul_100_not_nan, parseFloat_not_nan.
  eapply amountCondition_parses. exact H.
Qed.

(** *** Total cost and the surcharges *)

Lemma le_gt_exclusive a c : JS.le a c = true -> JS.gt a c = false.
Proof.
  unfold JS.le, JS.gt, SFltb. destruct (SFcompare c a) as [[]|]; congruence.
Qed.

Lemma le_or_gt a c : a <> JS.NaN -> c <> JS.NaN -> JS.le a c = true \/ JS.gt a c = true.
Proof.
  intros Ha Hc. unfold JS.le, JS.gt, SFltb, JS.NaN in *.
  destruct (SFcompare c a) as [[]|] eqn:E; auto.
  exfalso. destruct c as [?|?| |? ? ?]; try congruence;
    destruct a as [?|?| |? ? ?]; try congruence; cbn in E; discriminate E.
Qed.

Lemma ltb_same_exponent m1 m2 e0 a :
  (m1 < m2)%positive ->
  SFltb (S754_finite false m2 e0) a = true ->
  SFltb (S754_finite false m1 e0) a = true.
Proof.
  intros Hm. unfold SFltb, SFcompare.
  destruct a as [s|s| |s m e]; auto.
  destruct s; auto.
  destruct (Z.compare e0 e); auto.
  fold (Pos.compare m2 m). fold (Pos.compare m1 m).
  destruct (Pos.compare_spec m2 m); try discriminate.
  intros _. destruct (Pos.compare_spec m1 m); try reflexivity; lia.
Qed.

Lemma gt_720000_640000 a :
  JS.gt a (JS.of_Z 720000) = true -> JS.gt a (JS.of_Z 640000) = true.
Proof.
  unfold JS.gt.
  replace (JS.of_Z 720000) with (S754_finite false 6184752906240000 (-33))
    by (vm_compute; reflexivity).
  replace (JS.of_Z 640000) with (S754_finite false 5497558138880000 (-33))
    by (vm_compute; reflexivity).
  apply ltb_same_exponent. reflexivity.
Qed.

(** *** The rendered money fields *)

Lemma money_fields x a :
  x = JS.of_Z a -> 0 <= a < 2 ^ 53 ->
  rightTruncate (JS.rem x num_100) 2 = pad2 (a mod 100) /\
  JS.div (JS.sub x (JS.rem x num_100)) num_100 = JS.of_Z (a / 100) /\
  two_digits (rightTruncate (JS.rem x num_100) 2) = true /\
  plain_numeral (JS.toString (JS.div (JS.sub x (JS.rem x num_100)) num_100)) = true.
Proof.
  intros -> Ha.
  pose proof (Z.mod_pos_bound a 100 ltac:(lia)) as Hr.
  assert (Hq : 0 <= a / 100 < 2 ^ 53).
  { split; [apply Z.div_pos; lia|]. apply Z.div_lt_upper_bound; lia. }
  rewrite pounds_exact, rem_100_exact by assumption.
  rewrite rightTruncate_pennies by assumption.
  repeat split.
  - apply two_digits_pad2. assumption.
  - apply toString_of_Z_plain. assumption.
Qed.

(** *** The range checks in terms of the integer read *)

Lemma borrowCondition_scan_int f :
  borrowCondition f =
  match JS.scan_int (value f) with
  | Some (neg, n) => (0 <=? cond_Zopp neg n) && (cond_Zopp neg n <=? 9000)
  | None => false
  end.
Proof.
  unfold borrowCondition. change num_0 with (JS.of_Z 0).
  apply amountCondition_scan_int; [split; reflexivity|left; reflexivity].
Qed.

Lemma repayCondition_scan_int f :
  repayCondition f =
  match JS.scan_int (value f) with
  | Some (neg, n) => (10 <=? cond_Zopp neg n) && (cond_Zopp neg n <=? 100)
  | None => false
  end.
Proof.
  unfold repayCondition, num_100.
  apply amountCondition_scan_int; [split; reflexivity|right; split; reflexivity].
Qed.

Lemma digit_char_cases d :
  is_decimal_digit d ->
  JS.digit_value 10 (JS.digit_char d) = Some d /\
  JS.is_white_space (JS.digit_char d) = false /\
  Ascii.eqb (JS.digit_char d) "-" = false /\
  Ascii.eqb (JS.digit_char d) "+" = false /\
  Ascii.eqb (JS.digit_char d) "x" = false /\
  Ascii.eqb (JS.digit_char d) "X" = false.
Proof.
  unfold is_decimal_digit. intros H.
  assert (d = 0 \/ d = 1 \/ d = 2 \/ d = 3 \/ d = 4 \/ d = 5 \/ d = 6 \/ d = 7 \/
          d = 8 \/ d = 9) as Hd by lia.
  repeat (destruct Hd as [->|Hd]; [repeat split; reflexivity|]).
  subst d. repeat split; reflexivity.
Qed.

Lemma span_digits_text ds rest :
  Forall is_decimal_digit ds ->
  fst (JS.span_digits 10 rest) = [] ->
  JS.span_digits 10 (digits_text ds ++ rest) = (ds, snd (JS.span_digits 10 rest)).
Proof.
  intros HF Hrest. induction HF as [|d ds Hd HF IH].
  - cbn [digits_text fold_right append].
    destruct (JS.span_digits 10 rest) as [l r]. cbn [fst snd] in *. congruence.
  - cbn [digits_text fold_right append JS.span_digits].
    destruct (digit_char_cases d Hd) as [-> _].
    fold (digits_text ds). rewrite IH. reflexivity.
Qed.

Lemma digits_value_app ds fs :
  JS.digits_value 10 (ds ++ fs) =
  JS.digits_value 10 ds * 10 ^ Z.of_nat (List.length fs) + JS.digits_value 10 fs.
Proof.
  unfold JS.digits_value. rewrite fold_left_app.
  generalize (fold_left (fun acc d => acc * 10 + d) ds 0). intros acc.
  revert acc. induction fs as [|d fs IH]; intros acc.
  - cbn. lia.
  - cbn [fold_left List.length]. rewrite IH, (IH (0 * 10 + d)).
    rewrite Nat2Z.inj_succ, Z.pow_succ_r by lia. ring.
Qed.

(** ** The class list and the page *)

Lemma hidden_after_add l :
  existsb (String.eqb "d-none") (classList_add "d-none" l) = true.
Proof.
  unfold classList_add.
  destruct (existsb (String.eqb "d-none") l) eqn:E; [exact E|].
  rewrite existsb_app, E. reflexivity.
Qed.

Lemma hidden_after_remove l :
  existsb (String.eqb "d-none") (classList_remove "d-none" l) = false.
Proof.
  unfold classList_remove. induction l as [|c l IH]; [reflexivity|].
  cbn [filter]. destruct (String.eqb c "d-none") eqn:E; cbn [negb]; [exact IH|].
  cbn [existsb]. rewrite String.eqb_sym, E, IH. reflexivity.
Qed.

Lemma remove_add_other l :
  classList_remove "d-none" (classList_add "d-none" l) = classList_remove "d-none" l.
Proof.
  unfold classList_add, classList_remove.
  destruct (existsb (String.eqb "d-none") l); [reflexivity|].
  rewrite filter_app. cbn. apply app_nil_r.
Qed.

Lemma remove_idempotent c l :
  classList_remove c (classList_remove c l) = classList_remove c l.
Proof.
  unfold classList_remove. induction l as [|x l IH]; [reflexivity|].
  cbn [filter]. destruct (negb (String.eqb x c)) eqn:E; [|exact IH].
  cbn [filter]. rewrite E, IH. reflexivity.
Qed.

Lemma add_idempotent l :
  classList_add "d-none" (classList_add "d-none" l) = classList_add "d-none" l.
Proof.
  unfold classList_add at 1. rewrite hidden_after_add. reflexivity.
Qed.






Lemma hide_error_at e st r :
  Page.hide_error e st r =
  if Page.refers e r
  then mkElement (textContent (st r)) (classList_add "d-none" (classList (st r)))
  else st r.
Proof.
  destruct e as [r'|]; [|reflexivity].
  unfold Page.hide_error, Page.runValidation, Page.set, Page.refers. cbn [snd].
  rewrite Nat.eqb_sym. destruct (Nat.eqb_spec r' r) as [->|]; reflexivity.
Qed.

Lemma show_error_at msg e st r :
  Page.show_error msg e st r =
  if Page.refers e r then displayError (st r) msg else st r.
Proof.
  destruct e as [r'|]; [|reflexivity].
  unfold Page.show_error, Page.runValidation, Page.displayError, Page.set, Page.refers.
  cbn [snd]. rewrite Nat.eqb_sym. destruct (Nat.eqb_spec r' r) as [->|]; reflexivity.
Qed.

Lemma page_calculate_cases b s p errs st :
  Page.calculate b s p errs st =
  if borrowCondition b then
    if salaryCondition s then
      if repayCondition p then
        (Page.hide_error (Page.repayValidationFail errs)
           (Page.hide_error (Page.salaryValidationFail errs)
              (Page.hide_error (Page.borrowValidationFail errs) st)),
         Some (render (compute b s p)))
      else
        (Page.show_error repayMsg (Page.repayValidationFail errs)
           (Page.hide_error (Page.salaryValidationFail errs)
              (Page.hide_error (Page.borrowValidationFail errs) st)),
         None)
    else
      (Page.show_error salaryMsg (Page.salaryValidationFail errs)
         (Page.hide_error (Page.borrowValidationFail errs) st),
       None)
  else (Page.show_error borrowMsg (Page.borrowValidationFail errs) st, None).
Proof.
  unfold Page.calculate, Page.hide_error, Page.show_error, Page.runValidation.
  destruct (borrowCondition b); [|reflexivity].
  destruct (salaryCondition s); [|reflexivity].
  destruct (repayCondition p); reflexivity.
Qed.

(** On a page whose error elements are different elements, the page after
    [Page.calculate] is seen through [view] as [calculate] returns it; the
    result is the same in any case. *)
Lemma calculate_view b s p errs st :
  distinct errs ->
  calculate b s p (view errs st) =
  (view errs (fst (Page.calculate b s p errs st)), snd (Page.calculate b s p errs st)).
Proof.
  intros Hd. rewrite page_calculate_cases. unfold calculate.
  destruct errs as [e1 e2 e3]. unfold distinct in Hd.
  cbn [Page.borrowValidationFail Page.salaryValidationFail Page.repayValidationFail] in *.
  unfold view.
  cbn [Page.borrowValidationFail Page.salaryValidationFail Page.repayValidationFail
       borrowValidationFail salaryValidationFail repayValidationFail].
  assert (H1 : forall r, e1 = Some r -> Page.refers e2 r = false /\ Page.refers e3 r = false).
  { intros r ->. specialize (Hd r). cbn [Page.refers] in Hd. rewrite Nat.eqb_refl in Hd.
    cbn [andb] in Hd. rewrite !orb_false_iff in Hd. tauto. }
  assert (H2 : forall r, e2 = Some r -> Page.refers e1 r = false /\ Page.refers e3 r = false).
  { intros r ->. specialize (Hd r). cbn [Page.refers] in Hd. rewrite Nat.eqb_refl in Hd.
    rewrite !andb_true_r, ?andb_true_l, !orb_false_iff in Hd. tauto. }
  assert (H3 : forall r, e3 = Some r -> Page.refers e1 r = false /\ Page.refers e2 r = false).
  { intros r ->. specialize (Hd r). cbn [Page.refers] in Hd. rewrite Nat.eqb_refl in Hd.
    rewrite !andb_true_r, !orb_false_iff in Hd. tauto. }
  destruct (borrowCondition b), (salaryCondition s), (repayCondition p);
    cbn [runValidation fst snd borrowValidationFail salaryValidationFail repayValidationFail];
    f_equal; f_equal;
    try (destruct e1 as [r1|]; [destruct (H1 r1 eq_refl) as [A B]|]);
    try (destruct e2 as [r2|]; [destruct (H2 r2 eq_refl) as [C D]|]);
    try (destruct e3 as [r3|]; [destruct (H3 r3 eq_refl) as [E F]|]);
    cbn [option_map]; repeat (rewrite hide_error_at || rewrite show_error_at);
    cbn [Page.refers] in *;
    rewrite ?Nat.eqb_refl, ?A, ?B, ?C, ?D, ?E, ?F; reflexivity.
Qed.

(** ** The claims of the specification *)



(** C2: for inputs passing the three checks the total cost is 800000 pence
    plus 50000 when the amount borrowed in pence, 100 times the decimal
    read from the borrow text, exceeds 640000 and plus a further 50000
    when it exceeds 720000: 800000 up to 640000, 850000 above 640000 and
    up to 720000, 900000 above 720000; the amount is a number, so one of
    the three cases applies. *)
Theorem C2_totalCost_surcharges (b s p : HTMLFormElement) :
  validated b s p = true ->
  let w := compute b s p in
  let a := JS.mul num_100 (JS.parseFloat (value b)) in
  amountToBorrow w = a /\
  totalCost w =
    JS.add (JS.add (JS.of_Z 800000)
              (if JS.gt a (JS.of_Z 640000) then JS.of_Z 50000 else JS.of_Z 0))
           (if JS.gt a (JS.of_Z 720000) then JS.of_Z 50000 else JS.of_Z 0) /\
  (JS.le a (JS.of_Z 640000) = true -> totalCost w = JS.of_Z 800000) /\
  (JS.gt a (JS.of_Z 640000) = true -> JS.le a (JS.of_Z 720000) = true ->
   totalCost w = JS.of_Z 850000) /\
  (JS.gt a (JS.of_Z 720000) = true -> totalCost w = JS.of_Z 900000) /\
  (JS.le a (JS.of_Z 640000) = true \/
   (JS.gt a (JS.of_Z 640000) = true /\ JS.le a (JS.of_Z 720000) = true) \/
   JS.gt a (JS.of_Z 720000) = true).
Proof.
  intros Hv w a.
  assert (Hb : borrowCondition b = true).
  { unfold validated in Hv. apply andb_prop in Hv. destruct Hv as [Hv _].
    apply andb_prop in Hv. tauto. }
  assert (Ha : amountToBorrow w = a) by apply amountToBorrow_compute.
  assert (Hnan : a <> JS.NaN).
  { rewrite <- Ha. apply amountToBorrow_not_nan. assumption. }
  assert (HT : totalCost w = totalCost_of a) by apply totalCost_compute.
  split; [exact Ha|]. split; [exact HT|]. rewrite HT. unfold totalCost_of.
  split; [|split; [|split]].
  - intros H. pose proof (le_gt_exclusive _ _ H) as H1.
    destruct (JS.gt a (JS.of_Z 720000)) eqn:H2.
    + apply gt_720000_640000 in H2. congruence.
    + rewrite H1. reflexivity.
  - intros H1 H2. apply le_gt_exclusive in H2. rewrite H1, H2. reflexivity.
  - intros H2. rewrite (gt_720000_640000 _ H2), H2. reflexivity.
  - destruct (le_or_gt a (JS.of_Z 640000) Hnan ltac:(discriminate)) as [H|H]; [auto|].
    destruct (le_or_gt a (JS.of_Z 720000) Hnan ltac:(discriminate)) as [H'|H']; auto.
Qed.

Lemma C2_witness :
  amountToBorrow (compute (mkField "100") (mkField "2000") (mkField "50")) = JS.of_Z 10000 /\
  totalCost (compute (mkField "100") (mkField "2000") (mkField "50")) = JS.of_Z 800000.
Proof.
  destruct (C2_totalCost_surcharges (mkField "100") (mkField "2000") (mkField "50"))
    as (Ha & _ & H & _).
  - vm_compute. reflexivity.
  - split.
    + rewrite Ha. vm_compute. reflexivity.
    + apply H. vm_compute. reflexivity.
Defined.

(** C3, as stated, fails: read as arithmetic, 14 percent of a salary of
    2000 pounds is 28000 pence a month; the script, which first divides 14
    by 100 and then multiplies by 200000 in binary floating point, gets
    28000.000000000004 and a monthly repayment of 28001 pence. *)
Lemma C3_repayment_not_exact :
  ~ (forall b s p,
       validated b s p = true ->
       JS.gt (monthlyAmountRepaid (compute b s p)) num_0 = true ->
       exists m, exact_monthlyRepayment (value s) (value p) = Some m /\
                 monthlyAmountRepaid (compute b s p) = JS.of_Z m).
Proof.
  intros H.
  destruct (H (mkField "1000") (mkField "2000") (mkField "14")) as (m & H1 & H2).
  - vm_compute. reflexivity.
  - vm_compute. reflexivity.
  - vm_compute in H1. injection H1 as <-. vm_compute in H2. discriminate H2.
Qed.

(** C3, amended: for inputs passing the three checks with a positive
    monthly repayment, the monthly repayment is [Math.ceil] of the
    floating-point product of the percentage text's decimal divided by 100
    and 100 times the salary text's decimal, the final payment is the
    total cost [%] the monthly repayment, and the months are 1 plus
    [Math.ceil] of the rest over the monthly repayment.  The monthly
    repayment is a whole amount [z > 0] of pence or infinite; for [z] below
    2^53 the final payment and the months are exactly the integers
    [t mod z] and [1 + (t - t mod z) / z] for the total cost [t], one of
    800000, 850000 and 900000; when it is infinite the final payment is
    the total cost and there is 1 month.  Borrowing 1000 with salary 2000
    gives, at 50 percent, 100000 pence a month, a final payment of 0 and 9
    months, and at 14 percent 28001 pence a month, a final payment of
    15972 and 29 months. *)
Theorem C3_repayment_schedule :
  (forall b s p,
     validated b s p = true ->
     JS.gt (monthlyAmountRepaid (compute b s p)) num_0 = true ->
     let w := compute b s p in
     let T := totalCost_of (JS.mul num_100 (JS.parseFloat (value b))) in
     let m := JS.ceil (JS.mul (JS.div (JS.parseFloat (value p)) num_100)
                              (JS.mul num_100 (JS.parseFloat (value s)))) in
     totalCost w = T /\
     monthlyAmountRepaid w = m /\
     repayInLastMonth w = JS.rem T m /\
     timeToRepayN w = JS.add num_1 (JS.ceil (JS.div (JS.sub T (JS.rem T m)) m)) /\
     (m = JS.Infinity \/ exists z, 0 < z /\ m = JS.of_Z z) /\
     (forall z, m = JS.of_Z z -> z < 2 ^ 53 ->
        exists t, (t = 800000 \/ t = 850000 \/ t = 900000) /\ T = JS.of_Z t /\ 0 < z /\
                  repayInLastMonth w = JS.of_Z (t mod z) /\
                  timeToRepayN w = JS.of_Z (1 + (t - t mod z) / z)) /\
     (m = JS.Infinity -> repayInLastMonth w = T /\ timeToRepayN w = JS.of_Z 1)) /\
  (let w := compute (mkField "1000") (mkField "2000") (mkField "50") in
   validated (mkField "1000") (mkField "2000") (mkField "50") = true /\
   monthlyAmountRepaid w = JS.of_Z 100000 /\
   repayInLastMonth w = JS.of_Z 0 /\
   timeToRepayN w = JS.of_Z 9 /\
   timeToRepay (render w) = "9") /\
  (let w := compute (mkField "1000") (mkField "2000") (mkField "14") in
   validated (mkField "1000") (mkField "2000") (mkField "14") = true /\
   monthlyAmountRepaid w = JS.of_Z 28001 /\
   repayInLastMonth w = JS.of_Z 15972 /\
   timeToRepayN w = JS.of_Z 29).
Proof.
  split; [|split].
  - intros b s p Hv Hpos w T m.
    assert (Hcost : totalCost w = T) by apply totalCost_compute.
    assert (Hmon : monthlyAmountRepaid w = m) by apply monthlyAmountRepaid_compute.
    assert (Hrem : repayInLastMonth w = JS.rem T m).
    { change (repayInLastMonth w) with (JS.rem (totalCost w) (monthlyAmountRepaid w)).
      rewrite Hcost, Hmon. reflexivity. }
    assert (Htime : timeToRepayN w =
              JS.add num_1 (JS.ceil (JS.div (JS.sub T (JS.rem T m)) m))).
    { change (timeToRepayN w)
        with (JS.add num_1 (JS.ceil (JS.div
                (JS.sub (totalCost w) (repayInLastMonth w)) (monthlyAmountRepaid w)))).
      rewrite Hrem, Hcost, Hmon. reflexivity. }
    fold w in Hpos. rewrite Hmon in Hpos.
    split; [exact Hcost|]. split; [exact Hmon|]. split; [exact Hrem|].
    split; [exact Htime|]. split; [|split].
    + apply ceil_positive. exact Hpos.
    + intros z Hz Hz53.
      assert (Hz0 : 0 < z) by (apply gt_of_Z_pos; rewrite <- Hz; exact Hpos).
      assert (HT : exists t, (t = 800000 \/ t = 850000 \/ t = 900000) /\ T = JS.of_Z t).
      { unfold T.
        destruct (totalCost_of_cases (JS.mul num_100 (JS.parseFloat (value b))))
          as [E|[E|E]]; rewrite E; eexists; (split; [|reflexivity]); auto. }
      destruct HT as (t & Ht & HT).
      assert (Htr : 0 < t < 2 ^ 52) by (destruct Ht as [-> | [-> | ->]]; split; reflexivity).
      destruct (schedule_exact t z Htr ltac:(lia)) as [H1 H2].
      exists t. split; [assumption|]. split; [assumption|]. split; [assumption|].
      rewrite Htime, Hrem, HT, Hz, H1. split; [reflexivity|exact H2].
    + intros Hinf.
      destruct (schedule_infinite (JS.mul num_100 (JS.parseFloat (value b)))) as [H1 H2].
      rewrite Htime, Hrem, Hinf. fold T in H1, H2. rewrite H1. split; [reflexivity|exact H2].
  - vm_compute. repeat split; reflexivity.
  - vm_compute. repeat split; reflexivity.
Qed.

Lemma C3_witness :
  let w := compute (mkField "1000") (mkField "3000") (mkField "50") in
  exists t, totalCost w = JS.of_Z t /\
            repayInLastMonth w = JS.of_Z (t mod 150000) /\
            timeToRepayN w = JS.of_Z (1 + (t - t mod 150000) / 150000).
Proof.
  destruct C3_repayment_schedule as [H _].
  destruct (H (mkField "1000") (mkField "3000") (mkField "50"))
    as (Hc & _ & _ & _ & _ & Hm & _).
  - vm_compute. reflexivity.
  - vm_compute. reflexivity.
  - destruct (Hm 150000) as (t & _ & H1 & _ & H2 & H3).
    + vm_compute. reflexivity.
    + reflexivity.
    + exists t. split; [rewrite Hc; exact H1|]. split; [exact H2|exact H3].
Defined.

(** C4: the borrow check does not do what the claim, the message and the
    documentation of [amountCondition] say.  The text 9000.7 passes it:
    [parseInt] stops at the point and reads 9000, although the number
    entered rounds to 9001 and the calculation, which reads the text with
    [parseFloat], then works with more than the 900000 pence of the
    cap. *)
Theorem C4_fraction_passes_check (s p : HTMLFormElement) :
  let f := mkField "9000.7" in
  borrowCondition f = true /\
  rounds_into_range f = false /\
  JS.parseInt (value f) = JS.of_Z 9000 /\
  math_round (JS.parseFloat (value f)) = JS.of_Z 9001 /\
  JS.gt (amountToBorrow (compute f s p)) (JS.of_Z 900000) = true.
Proof.
  cbv zeta. rewrite amountToBorrow_compute.
  vm_compute. repeat split; reflexivity.
Qed.

(** C5, as stated, fails: for the borrow text 2.2 exact arithmetic gives a
    fee of 11 pence (5% of 220 pence), the script 12 pence, because
    [100 * 2.2] is 220.00000000000003 in binary floating point. *)
Lemma C5_fee_not_exact :
  ~ (forall b s p, validated b s p = true ->
       exists fee, exact_adminFee (value b) = Some fee /\
                   adminFee (compute b s p) = JS.of_Z fee).
Proof.
  intros H.
  destruct (H (mkField "2.2") (mkField "2000") (mkField "50")) as (fee & H1 & H2).
  - vm_compute. reflexivity.
  - vm_compute in H1. injection H1 as <-. vm_compute in H2. discriminate H2.
Qed.

(** C5, amended: the fee is [Math.ceil] of the floating-point product of
    [0.05] and the amount borrowed in pence, itself the floating-point
    product of 100 and the decimal read from the borrow text; it does not
    depend on the salary, the percentage or the surcharge; for every whole
    number of pounds from 0 to 9000 it is the exact fee, 5 pence per
    pound. *)
Theorem C5_adminFee :
  (forall b s p,
     amountToBorrow (compute b s p) = JS.mul num_100 (JS.parseFloat (value b)) /\
     adminFee (compute b s p) = JS.ceil (JS.mul num_0_05 (amountToBorrow (compute b s p)))) /\
  (forall b s p s' p', adminFee (compute b s p) = adminFee (compute b s' p')) /\
  (forall n s p, 0 <= n <= 9000 ->
     exact_adminFee (JS.decimal n) = Some (5 * n) /\
     adminFee (compute (mkField (JS.decimal n)) s p) = JS.of_Z (5 * n)).
Proof.
  split; [|split].
  - intros b s p. split; reflexivity.
  - intros b s p s' p'. reflexivity.
  - intros n s p Hn.
    assert (Hn' : 0 <= n < 0 + 9001) by lia.
    split.
    + pose proof (Zrange_forallb
        (fun n => match exact_adminFee (JS.decimal n) with
                  | Some fee => fee =? 5 * n
                  | None => false
                  end) 0 9001 ltac:(vm_compute; reflexivity) n Hn') as H.
      cbv beta in H. destruct (exact_adminFee (JS.decimal n)) as [fee|]; [|discriminate].
      apply Z.eqb_eq in H. congruence.
    + rewrite adminFee_compute. apply number_eqb_eq.
      apply (Zrange_forallb
               (fun n => JS.number_eqb
                  (JS.ceil (JS.mul num_0_05 (JS.mul num_100 (JS.parseFloat (JS.decimal n)))))
                  (JS.of_Z (5 * n))) 0 9001);
        [vm_compute; reflexivity|assumption].
Qed.

Lemma C5_witness :
  exact_adminFee (JS.decimal 1000) = Some 5000 /\
  adminFee (compute (mkField (JS.decimal 1000)) (mkField "2000") (mkField "50")) = JS.of_Z 5000.
Proof.
  destruct C5_adminFee as (_ & _ & H).
  apply (H 1000 (mkField "2000") (mkField "50")). lia.
Defined.

(** C6: whenever the three checks pass [calculate] returns a result
    object, there is no further guard; with salary 0, any borrow text
    passing its check and any whole percentage from 10 to 100 the monthly
    repayment is 0, the remainder and the division by it give NaN, and the
    object returned carries the texts NaN and aN. *)
Theorem C6_zero_repayment_unguarded :
  (forall b s p errs, validated b s p = true ->
     exists fd, snd (calculate b s p errs) = Some fd) /\
  (forall b q errs,
     borrowCondition b = true -> 10 <= q <= 100 ->
     let s := mkField "0" in
     let p := mkField (JS.decimal q) in
     validated b s p = true /\
     monthlyAmountRepaid (compute b s p) = S754_zero false /\
     repayInLastMonth (compute b s p) = JS.NaN /\
     timeToRepayN (compute b s p) = JS.NaN /\
     exists fd, snd (calculate b s p errs) = Some fd /\
                monthlyRepaymentPounds fd = "0" /\
                finalMonthPaymentPounds fd = "NaN" /\
                finalMonthPaymentPennies fd = "aN" /\
                timeToRepay fd = "NaN").
Proof.
  split.
  - intros b s p errs H. eexists. apply calculate_returns. assumption.
  - intros b q errs Hb Hq s p.
    assert (Hq' : 10 <= q < 10 + 91) by lia.
    assert (Hp : repayCondition p = true).
    { apply (Zrange_forallb (fun q => repayCondition (mkField (JS.decimal q))) 10 91);
        [vm_compute; reflexivity|assumption]. }
    assert (Hm : monthlyAmountRepaid (compute b s p) = S754_zero false).
    { rewrite monthlyAmountRepaid_compute. apply number_eqb_eq.
      apply (Zrange_forallb
               (fun q => JS.number_eqb
                  (JS.ceil (JS.mul (JS.div (JS.parseFloat (JS.decimal q)) num_100)
                                   (JS.mul num_100 (JS.parseFloat "0"))))
                  (S754_zero false)) 10 91);
        [vm_compute; reflexivity|assumption]. }
    assert (Hv : validated b s p = true).
    { unfold validated. rewrite Hb, Hp. reflexivity. }
    assert (Hr : repayInLastMonth (compute b s p) = JS.NaN).
    { change (repayInLastMonth (compute b s p))
        with (JS.rem (totalCost (compute b s p)) (monthlyAmountRepaid (compute b s p))).
      rewrite Hm. apply rem_zero. }
    assert (Ht : timeToRepayN (compute b s p) = JS.NaN).
    { change (timeToRepayN (compute b s p))
        with (JS.add num_1 (JS.ceil (JS.div
                (JS.sub (totalCost (compute b s p)) (repayInLastMonth (compute b s p)))
                (monthlyAmountRepaid (compute b s p))))).
      rewrite Hr. destruct (totalCost (compute b s p)); reflexivity. }
    repeat split; try assumption.
    eexists. split; [apply calculate_returns; assumption|].
    unfold render. cbn [monthlyRepaymentPounds finalMonthPaymentPounds
                        finalMonthPaymentPennies timeToRepay].
    rewrite Ht.
    change (finalMonthPaymentPenniesN (compute b s p))
      with (JS.rem (repayInLastMonth (compute b s p)) num_100).
    change (finalMonthPaymentPoundsN (compute b s p))
      with (JS.div (JS.sub (repayInLastMonth (compute b s p))
                           (JS.rem (repayInLastMonth (compute b s p)) num_100)) num_100).
    change (monthlyRepaymentPoundsN (compute b s p))
      with (JS.div (JS.sub (monthlyAmountRepaid (compute b s p))
                           (JS.rem (monthlyAmountRepaid (compute b s p)) num_100)) num_100).
    rewrite Hr, Hm. repeat split; reflexivity.
Qed.

Lemma C6_witness :
  exists fd,
    snd (calculate (mkField "1000") (mkField "0") (mkField "50") quiet_page) = Some fd /\
    timeToRepay fd = "NaN".
Proof.
  destruct C6_zero_repayment_unguarded as [_ H].
  destruct (H (mkField "1000") 50 quiet_page) as (_ & _ & _ & _ & fd & Hfd & _ & _ & _ & Ht).
  - vm_compute. reflexivity.
  - lia.
  - exists fd. split; [exact Hfd|exact Ht].
Defined.

(** C7: a field whose text holds no number for [parseInt] (the result is
    NaN) fails its range check, whatever the bounds, so each of the three
    checks fails on it and [calculate] ends without a result; a text with
    no digit at all, the empty text included, is such a text.  The model of
    the script is a total function: there is no other outcome. *)
Theorem C7_not_a_number_fails :
  (forall f minValue maxValue,
     JS.parseInt (value f) = JS.NaN -> amountCondition f minValue maxValue = false) /\
  (forall f, JS.parseInt (value f) = JS.NaN ->
     borrowCondition f = false /\ salaryCondition f = false /\ repayCondition f = false) /\
  (forall b s p errs,
     JS.parseInt (value b) = JS.NaN \/ JS.parseInt (value s) = JS.NaN \/
     JS.parseInt (value p) = JS.NaN ->
     snd (calculate b s p errs) = None) /\
  (forall f, no_digit (value f) = true -> JS.parseInt (value f) = JS.NaN).
Proof.
  assert (H1 : forall f minValue maxValue,
             JS.parseInt (value f) = JS.NaN -> amountCondition f minValue maxValue = false).
  { intros f mn mx H. unfold amountCondition. rewrite H. reflexivity. }
  split; [exact H1|]. split; [|split].
  - intros f H. repeat split; apply H1; assumption.
  - intros b s p errs H. rewrite calculate_result. unfold validated.
    destruct H as [H|[H|H]].
    + unfold borrowCondition. rewrite (H1 b) by assumption. reflexivity.
    + unfold salaryCondition. rewrite (H1 s) by assumption.
      rewrite andb_false_r. reflexivity.
    + unfold repayCondition. rewrite (H1 p) by assumption.
      rewrite andb_false_r. reflexivity.
  - intros f H. apply parseInt_NaN_scan, scan_int_no_digit. assumption.
Qed.

Lemma C7_witness :
  JS.parseInt (value (mkField "abc")) = JS.NaN /\
  amountCondition (mkField "abc") (Some num_0) (Some (JS.of_Z 9000)) = false /\
  snd (calculate (mkField "abc") (mkField "2000") (mkField "50") quiet_page) = None /\
  no_digit (value (mkField "")) = true /\ JS.parseInt (value (mkField "")) = JS.NaN.
Proof.
  destruct C7_not_a_number_fails as (H1 & _ & H3 & H4).
  split; [reflexivity|]. split; [apply H1; reflexivity|].
  split; [apply H3; left; reflexivity|].
  split; [reflexivity|apply H4; reflexivity].
Defined.

(** C8, as stated, fails: the salary check has no upper bound, and with
    salary 1234500000000000000000000 at 100 percent the monthly repayment
    is positive and its pounds field is rendered as "1.2345e+24", with a
    decimal point and an exponent. *)
Lemma C8_fields_not_always_well_formed :
  ~ (forall b s p,
       validated b s p = true ->
       JS.gt (monthlyAmountRepaid (compute b s p)) num_0 = true ->
       well_formed_fields (render (compute b s p)) = true).
Proof.
  intros H.
  specialize (H (mkField "1000") (mkField "1234500000000000000000000") (mkField "100")
                ltac:(vm_compute; reflexivity) ltac:(vm_compute; reflexivity)).
  assert (Hp : monthlyRepaymentPounds
                 (render (compute (mkField "1000")
                            (mkField "1234500000000000000000000") (mkField "100")))
               = "1.2345e+24") by (vm_compute; reflexivity).
  unfold well_formed_fields in H. rewrite Hp in H.
  change (plain_numeral "1.2345e+24") with false in H.
  rewrite !andb_false_r, ?andb_false_l in H. discriminate H.
Qed.

(** C8, amended: for inputs passing the three checks with a positive
    monthly repayment, when the fee and the monthly repayment are whole
    amounts of pence from 0 below 2^53, each of the four pennies fields is
    the two-digit zero-padded numeral of its amount modulo 100 (the fee
    [a], the monthly repayment [m], the final payment [r = T mod m] and
    the total cost [T], whose pennies are 00), each of the four pounds
    fields is a plain decimal numeral (digits only, no leading zero
    except "0"), and so is the number of months. *)
Theorem C8_fields_well_formed (b s p : HTMLFormElement) (a m : Z) :
  validated b s p = true ->
  JS.gt (monthlyAmountRepaid (compute b s p)) num_0 = true ->
  adminFee (compute b s p) = JS.of_Z a -> 0 <= a < 2 ^ 53 ->
  monthlyAmountRepaid (compute b s p) = JS.of_Z m -> m < 2 ^ 53 ->
  let fd := render (compute b s p) in
  well_formed_fields fd = true /\
  adminFeePennies fd = pad2 (a mod 100) /\
  monthlyRepaymentPennies fd = pad2 (m mod 100) /\
  (exists T r,
     totalCost (compute b s p) = JS.of_Z T /\
     repayInLastMonth (compute b s p) = JS.of_Z r /\
     r = T mod m /\ 0 <= r < m /\
     finalMonthPaymentPennies fd = pad2 (r mod 100) /\
     totalCostPennies fd = pad2 (T mod 100)) /\
  totalCostPennies fd = "00" /\
  plain_numeral (timeToRepay fd) = true.
Proof.
  intros Hv Hpos Ha Ha53 Hm Hm53 fd.
  set (w := compute b s p) in *.
  assert (Hm0 : 0 < m) by (apply gt_of_Z_pos; rewrite <- Hm; exact Hpos).
  assert (HT : exists T, totalCost w = JS.of_Z T /\ 0 < T < 2 ^ 52 /\ T mod 100 = 0).
  { unfold w. rewrite totalCost_compute.
    destruct (totalCost_of_cases (JS.mul num_100 (JS.parseFloat (value b))))
      as [E|[E|E]]; rewrite E; eexists;
      (split; [reflexivity|split; [split; reflexivity|reflexivity]]). }
  destruct HT as (T & HT & HTr & HT100).
  assert (2 ^ 52 < 2 ^ 53) by reflexivity.
  destruct (schedule_exact T m HTr ltac:(lia)) as [Hrem Htime].
  pose proof (Z.mod_pos_bound T m ltac:(lia)) as Hr.
  pose proof (Z.mod_le T m ltac:(lia) ltac:(lia)) as Hr'.
  assert (Hlast : repayInLastMonth w = JS.of_Z (T mod m)).
  { change (repayInLastMonth w) with (JS.rem (totalCost w) (monthlyAmountRepaid w)).
    rewrite HT, Hm. exact Hrem. }
  assert (Htime' : timeToRepayN w = JS.of_Z (1 + (T - T mod m) / m)).
  { change (timeToRepayN w)
      with (JS.add num_1 (JS.ceil (JS.div
              (JS.sub (totalCost w) (repayInLastMonth w)) (monthlyAmountRepaid w)))).
    rewrite Hlast, HT, Hm. exact Htime. }
  destruct (money_fields _ a Ha Ha53) as (A1 & A2 & A3 & A4).
  destruct (money_fields _ m Hm ltac:(lia)) as (M1 & M2 & M3 & M4).
  destruct (money_fields _ (T mod m) Hlast ltac:(lia)) as (R1 & R2 & R3 & R4).
  destruct (money_fields _ T HT ltac:(lia)) as (T1 & T2 & T3 & T4).
  assert (Hfields :
    adminFeePennies fd = rightTruncate (JS.rem (adminFee w) num_100) 2 /\
    adminFeePounds fd =
      JS.toString (JS.div (JS.sub (adminFee w) (JS.rem (adminFee w) num_100)) num_100) /\
    monthlyRepaymentPennies fd = rightTruncate (JS.rem (monthlyAmountRepaid w) num_100) 2 /\
    monthlyRepaymentPounds fd =
      JS.toString (JS.div (JS.sub (monthlyAmountRepaid w)
                                  (JS.rem (monthlyAmountRepaid w) num_100)) num_100) /\
    finalMonthPaymentPennies fd = rightTruncate (JS.rem (repayInLastMonth w) num_100) 2 /\
    finalMonthPaymentPounds fd =
      JS.toString (JS.div (JS.sub (repayInLastMonth w)
                                  (JS.rem (repayInLastMonth w) num_100)) num_100) /\
    totalCostPennies fd = rightTruncate (JS.rem (totalCost w) num_100) 2 /\
    totalCostPounds fd =
      JS.toString (JS.div (JS.sub (totalCost w) (JS.rem (totalCost w) num_100)) num_100) /\
    timeToRepay fd = JS.toString (timeToRepayN w)).
  { repeat split; reflexivity. }
  destruct Hfields as (F1 & F2 & F3 & F4 & F5 & F6 & F7 & F8 & F9).
  split; [|split; [|split; [|split; [|split]]]].
  - unfold well_formed_fields.
    rewrite F1, F2, F3, F4, F5, F6, F7, F8, A3, A4, M3, M4, R3, R4, T3, T4. reflexivity.
  - rewrite F1. exact A1.
  - rewrite F3. exact M1.
  - exists T, (T mod m). split; [exact HT|]. split; [exact Hlast|].
    split; [reflexivity|]. split; [assumption|].
    split; [rewrite F5; exact R1|rewrite F7; exact T1].
  - rewrite F7, T1, HT100. reflexivity.
  - rewrite F9, Htime'. apply toString_of_Z_plain.
    assert (0 <= (T - T mod m) / m) by (apply Z.div_pos; lia).
    assert ((T - T mod m) / m <= T).
    { apply Z.div_le_upper_bound; nia. }
    lia.
Qed.

Lemma C8_witness :
  well_formed_fields
    (render (compute (mkField "9000.99") (mkField "1234.56") (mkField "33"))) = true.
Proof.
  refine (proj1 (C8_fields_well_formed
    (mkField "9000.99") (mkField "1234.56") (mkField "33") 45005 40741 _ _ _ _ _ _)).
  - vm_compute. reflexivity.
  - vm_compute. reflexivity.
  - vm_compute. reflexivity.
  - split; [lia|reflexivity].
  - vm_compute. reflexivity.
  - reflexivity.
Defined.

(** C9: borrowing 7300, 6500 and 100 costs 900000, 850000 and 800000 pence
    in total, whatever the salary and the percentage, and these amounts
    decrease in that order. *)
Theorem C9_totalCost_thresholds (s p : HTMLFormElement) :
  totalCost (compute (mkField "7300") s p) = JS.of_Z 900000 /\
  totalCost (compute (mkField "6500") s p) = JS.of_Z 850000 /\
  totalCost (compute (mkField "100") s p) = JS.of_Z 800000 /\
  JS.ge (totalCost (compute (mkField "7300") s p))
        (totalCost (compute (mkField "6500") s p)) = true /\
  JS.ge (totalCost (compute (mkField "6500") s p))
        (totalCost (compute (mkField "100") s p)) = true.
Proof.
  rewrite !totalCost_compute. vm_compute. repeat split; reflexivity.
Qed.

(** C10: the text 9000.99 passes the borrow check, because [parseInt] reads
    9000 from it, while the calculation reads 9000.99 and works with
    900099 pence, above the 900000 pence of the validated cap; the fee is
    computed from that amount. *)
Theorem C10_validated_cap_not_enforced (s p : HTMLFormElement) :
  let b := mkField "9000.99" in
  borrowCondition b = true /\
  JS.parseInt (value b) = JS.of_Z 9000 /\
  JS.parseFloat (value b) <> JS.parseInt (value b) /\
  amountToBorrow (compute b s p) = JS.of_Z 900099 /\
  JS.gt (amountToBorrow (compute b s p)) (JS.of_Z 900000) = true /\
  adminFee (compute b s p) = JS.of_Z 45005.
Proof.
  cbv zeta. rewrite amountToBorrow_compute, adminFee_compute.
  vm_compute. repeat split; try reflexivity. discriminate.
Qed.

(** ** Further properties of the script *)

(** *** The error elements *)

(** X1: for an element that exists, [runValidation] returns its condition
    and leaves the element hidden exactly when the condition held; on
    failure the element carries the message, on success it keeps the text
    it had (an earlier message is hidden, not erased); the other classes of
    the element stay as they were, in order. *)
Theorem X1_runValidation_element (condition : bool) (errorMsg : string) (el : Element) :
  exists el',
    runValidation condition errorMsg (Some el) = (condition, Some el') /\
    hidden el' = condition /\
    textContent el' = (if condition then textContent el else errorMsg) /\
    other_classes el' = other_classes el.
Proof.
  destruct condition; cbn [runValidation]; eexists; (split; [reflexivity|]);
    unfold hidden, other_classes, displayError; cbn [classList textContent].
  - split; [apply hidden_after_add|]. split; [reflexivity|apply remove_add_other].
  - split; [apply hidden_after_remove|]. split; [reflexivity|apply remove_idempotent].
Qed.

Lemma show_error_idempotent msg e : show_error msg (show_error msg e) = show_error msg e.
Proof.
  destruct e as [el|]; [|reflexivity].
  unfold show_error, displayError. cbn [option_map classList textContent].
  rewrite remove_idempotent. reflexivity.
Qed.

Lemma hide_error_idempotent e : hide_error (hide_error e) = hide_error e.
Proof.
  destruct e as [el|]; [|reflexivity].
  unfold hide_error. cbn [option_map classList textContent].
  rewrite add_idempotent. reflexivity.
Qed.

Lemma calculate_cases b s p errs :
  calculate b s p errs =
  if borrowCondition b then
    if salaryCondition s then
      if repayCondition p then
        (mkErrorFields (hide_error (borrowValidationFail errs))
                       (hide_error (salaryValidationFail errs))
                       (hide_error (repayValidationFail errs)),
         Some (render (compute b s p)))
      else
        (mkErrorFields (hide_error (borrowValidationFail errs))
                       (hide_error (salaryValidationFail errs))
                       (show_error repayMsg (repayValidationFail errs)),
         None)
    else
      (mkErrorFields (hide_error (borrowValidationFail errs))
                     (show_error salaryMsg (salaryValidationFail errs))
                     (repayValidationFail errs),
       None)
  else
    (mkErrorFields (show_error borrowMsg (borrowValidationFail errs))
                   (salaryValidationFail errs)
                   (repayValidationFail errs),
     None).
Proof.
  unfold calculate.
  destruct (borrowCondition b);
    [rewrite runValidation_true | rewrite runValidation_false]; [|reflexivity].
  destruct (salaryCondition s);
    [rewrite runValidation_true | rewrite runValidation_false]; [|reflexivity].
  destruct (repayCondition p);
    [rewrite runValidation_true | rewrite runValidation_false]; reflexivity.
Qed.

(** X2: pressing the button again with the same field contents changes
    nothing further: [calculate] run on the error elements it has just left
    returns the same elements and the same result. *)
Theorem X2_calculate_idempotent (b s p : HTMLFormElement) (errs : errorFields) :
  calculate b s p (fst (calculate b s p errs)) = calculate b s p errs.
Proof.
  rewrite !calculate_cases.
  destruct (borrowCondition b), (salaryCondition s), (repayCondition p);
    cbn [fst borrowValidationFail salaryValidationFail repayValidationFail];
    rewrite ?hide_error_idempotent, ?show_error_idempotent; reflexivity.
Qed.

Lemma hidden_opt_hide e : hidden_opt (hide_error e) = true.
Proof.
  destruct e as [el|]; [|reflexivity].
  unfold hide_error, hidden_opt, hidden. cbn [option_map classList].
  apply hidden_after_add.
Qed.

Lemma hidden_opt_show msg e : e <> None -> hidden_opt (show_error msg e) = false.
Proof.
  destruct e as [el|]; [|congruence]. intros _.
  unfold show_error, hidden_opt, hidden, displayError. cbn [option_map classList].
  apply hidden_after_remove.
Qed.

(** X3: on a page that has the three error elements, [calculate] returns a
    result exactly when it leaves no error element visible. *)
Theorem X3_result_iff_no_visible_error (b s p : HTMLFormElement) (errs : errorFields) :
  all_present errs ->
  (snd (calculate b s p errs) <> None <-> all_hidden (fst (calculate b s p errs)) = true).
Proof.
  intros (Hb & Hs & Hp). rewrite calculate_cases. unfold all_hidden.
  destruct (borrowCondition b), (salaryCondition s), (repayCondition p);
    cbn [fst snd borrowValidationFail salaryValidationFail repayValidationFail];
    rewrite ?hidden_opt_hide, ?hidden_opt_show by assumption;
    cbn [andb]; rewrite ?andb_false_r; split; congruence.
Qed.

Lemma X3_witness :
  snd (calculate (mkField "9001") (mkField "2000") (mkField "50") quiet_page) <> None <->
  all_hidden (fst (calculate (mkField "9001") (mkField "2000") (mkField "50") quiet_page)) = true.
Proof.
  apply X3_result_iff_no_visible_error.
  repeat split; discriminate.
Defined.

Lemma other_classes_hide e : other_classes_opt (hide_error e) = other_classes_opt e.
Proof.
  destruct e as [el|]; [|reflexivity].
  unfold other_classes_opt, hide_error, other_classes. cbn [option_map classList].
  rewrite remove_add_other. reflexivity.
Qed.

Lemma other_classes_show msg e : other_classes_opt (show_error msg e) = other_classes_opt e.
Proof.
  destruct e as [el|]; [|reflexivity].
  unfold other_classes_opt, show_error, other_classes, displayError.
  cbn [option_map classList]. rewrite remove_idempotent. reflexivity.
Qed.

(** X4: whatever the fields hold, [calculate] neither creates nor drops an
    error element, and every class of an element other than [d-none] is
    kept, in order: the call only adds or removes [d-none] and sets
    message texts. *)
Theorem X4_calculate_frame (b s p : HTMLFormElement) (errs : errorFields) :
  frame (fst (calculate b s p errs)) = frame errs.
Proof.
  rewrite calculate_cases. unfold frame.
  destruct (borrowCondition b), (salaryCondition s), (repayCondition p);
    cbn [fst borrowValidationFail salaryValidationFail repayValidationFail];
    rewrite ?other_classes_hide, ?other_classes_show; reflexivity.
Qed.

(** *** Missing fields *)

(** X6: [calculate] throws a TypeError exactly when the borrow field or the
    [errFields] argument is missing, or the salary field is missing and
    the borrow check passes, or the percentage field is missing and the
    borrow and salary checks pass.  A missing salary or percentage field
    therefore goes unnoticed whenever an earlier check fails. *)
Theorem X6_calculate_throws (b s p : option HTMLFormElement) (errs : option errorFields) :
  (exists st, calculate_nullable b s p errs = TypeError st) <->
  b = None \/ errs = None \/
  (exists bf, b = Some bf /\ borrowCondition bf = true /\
     (s = None \/
      exists sf, s = Some sf /\ salaryCondition sf = true /\ p = None)).
Proof.
  unfold calculate_nullable.
  destruct b as [bf|]; [|split; [intros _; left; reflexivity | intros _; eexists; reflexivity]].
  destruct errs as [ef|];
    [|split; [intros _; right; left; reflexivity | intros _; eexists; reflexivity]].
  destruct (borrowCondition bf) eqn:Eb;
    [rewrite runValidation_true | rewrite runValidation_false].
  2:{ split.
      - intros [st H]. discriminate H.
      - intros [H|[H|(bf' & H & Hb & _)]]; try discriminate H.
        injection H as <-. congruence. }
  destruct s as [sf|].
  2:{ split; [|intros _; eexists; reflexivity].
      intros _. right; right. exists bf. auto. }
  cbn [borrowValidationFail salaryValidationFail repayValidationFail].
  destruct (salaryCondition sf) eqn:Es;
    [rewrite runValidation_true | rewrite runValidation_false].
  2:{ split.
      - intros [st H]. discriminate H.
      - intros [H|[H|(bf' & H & Hb & [Hs|(sf' & Hs & Hsc & _)])]]; try discriminate.
        injection Hs as <-. congruence. }
  destruct p as [pf|].
  2:{ split; [|intros _; eexists; reflexivity].
      intros _. right; right. exists bf. repeat split; auto.
      right. exists sf. auto. }
  destruct (runValidation (repayCondition pf) repayMsg (repayValidationFail ef)) as [[] el3].
  - split.
    + intros [st H]. discriminate H.
    + intros [H|[H|(bf' & H & Hb & [Hs|(sf' & Hs & Hsc & Hp)])]]; discriminate.
  - split.
    + intros [st H]. discriminate H.
    + intros [H|[H|(bf' & H & Hb & [Hs|(sf' & Hs & Hsc & Hp)])]]; discriminate.
Qed.

(** *** The range check *)

Lemma compare_canon_neg a b :
  0 < a < 2 ^ 53 -> 0 < b < 2 ^ 53 ->
  SFcompare (canon true a) (canon true b) = Some (b ?= a).
Proof.
  intros Ha Hb.
  pose proof (Zdigits2_le_53 a Ha). pose proof (Zdigits2_le_53 b Hb).
  pose proof (Zdigits2_pos a ltac:(lia)). pose proof (Zdigits2_pos b ltac:(lia)).
  pose proof (Zdigits2_bounds a ltac:(lia)) as [La Ua].
  pose proof (Zdigits2_bounds b ltac:(lia)) as [Lb Ub].
  unfold canon, SFcompare. f_equal.
  destruct (Z.compare_spec (Zdigits2 a - 53) (Zdigits2 b - 53)) as [He|He|He].
  - change (Pos.compare_cont Eq ?x ?y) with (Z.compare (Zpos x) (Zpos y)).
    rewrite !canon_mantissa by assumption.
    replace (Zdigits2 b) with (Zdigits2 a) by lia.
    assert (0 < 2 ^ (53 - Zdigits2 a)) by (apply Z.pow_pos_nonneg; lia).
    destruct (Z.compare_spec (a * 2 ^ (53 - Zdigits2 a)) (b * 2 ^ (53 - Zdigits2 a)));
      cbn [CompOpp]; symmetry;
      [apply Z.compare_eq_iff | apply Z.compare_gt_iff | apply Z.compare_lt_iff]; nia.
  - symmetry. apply Z.compare_gt_iff.
    assert (2 ^ Zdigits2 a <= 2 ^ (Zdigits2 b - 1)) by (apply Z.pow_le_mono_r; lia). lia.
  - symmetry. apply Z.compare_lt_iff.
    assert (2 ^ Zdigits2 b <= 2 ^ (Zdigits2 a - 1)) by (apply Z.pow_le_mono_r; lia). lia.
Qed.

Section SignedBounds.
Variables (neg : bool) (n : Z).
Hypothesis Hn : 0 <= n.

Let x : JS.number :=
  if n =? 0 then S754_zero neg else JS.of_Z (cond_Zopp neg n).

Lemma ge_int_neg_inf : JS.ge x JS.negInfinity = true.
Proof.
  unfold x. destruct (Z.eqb_spec n 0) as [->|Hne].
  - reflexivity.
  - destruct (of_Z_cases neg n ltac:(lia)) as [[Hs ->]|[Hb [->|(m & e & He & ->)]]];
      destruct neg; reflexivity.
Qed.

Lemma le_int_0 : JS.le x num_0 = (cond_Zopp neg n <=? 0).
Proof.
  unfold x. destruct (Z.eqb_spec n 0) as [->|Hne].
  - destruct neg; reflexivity.
  - destruct (of_Z_cases neg n ltac:(lia)) as [[Hs ->]|[Hb [->|(m & e & He & ->)]]];
      destruct neg; cbn; symmetry;
      try (apply Z.leb_le; lia); try (apply Z.leb_gt; lia).
Qed.

Variable c : Z.
Hypothesis Hc : 0 < c < 2 ^ 53.

Lemma ge_int_below_0 : JS.ge x (JS.of_Z (- c)) = (- c <=? cond_Zopp neg n).
Proof.
  unfold x. rewrite (of_Z_canon_neg c) by assumption.
  pose proof (Zdigits2_le_53 c Hc).
  destruct (Z.eqb_spec n 0) as [->|Hne].
  - cbn. symmetry. destruct neg; apply Z.leb_le; cbn; lia.
  - destruct (of_Z_cases neg n ltac:(lia)) as [[Hs ->]|[Hb [->|(m & e & He & ->)]]].
    + destruct neg.
      * unfold JS.ge. rewrite compare_canon_neg by lia. cbn [cond_Zopp].
        destruct (Z.compare_spec c n); symmetry;
          try (apply Z.leb_le; lia); try (apply Z.leb_gt; lia).
      * cbn. symmetry. apply Z.leb_le. lia.
    + destruct neg; cbn; symmetry;
        try (apply Z.leb_le; lia); try (apply Z.leb_gt; lia).
    + destruct neg; unfold JS.ge, canon, SFcompare; cbn [cond_Zopp]; symmetry.
      * replace (e ?= Zdigits2 c - 53) with Gt by (symmetry; apply Z.compare_gt_iff; lia).
        apply Z.leb_gt. lia.
      * apply Z.leb_le. lia.
Qed.

Lemma le_int_below_0 : JS.le x (JS.of_Z (- c)) = (cond_Zopp neg n <=? - c).
Proof.
  unfold x. rewrite (of_Z_canon_neg c) by assumption.
  pose proof (Zdigits2_le_53 c Hc).
  destruct (Z.eqb_spec n 0) as [->|Hne].
  - cbn. symmetry. destruct neg; apply Z.leb_gt; cbn; lia.
  - destruct (of_Z_cases neg n ltac:(lia)) as [[Hs ->]|[Hb [->|(m & e & He & ->)]]].
    + destruct neg.
      * unfold JS.le. rewrite compare_canon_neg by lia. cbn [cond_Zopp].
        destruct (Z.compare_spec n c); symmetry;
          try (apply Z.leb_le; lia); try (apply Z.leb_gt; lia).
      * cbn. symmetry. apply Z.leb_gt. lia.
    + destruct neg; cbn; symmetry;
        try (apply Z.leb_le; lia); try (apply Z.leb_gt; lia).
    + destruct neg; unfold JS.le, canon, SFcompare; cbn [cond_Zopp]; symmetry.
      * replace (Zdigits2 c - 53 ?= e) with Lt by (symmetry; apply Z.compare_lt_iff; lia).
        apply Z.leb_le. lia.
      * apply Z.leb_gt. lia.
Qed.
End SignedBounds.

Lemma ge_whole neg n c :
  0 <= n -> - 2 ^ 53 < c < 2 ^ 53 ->
  JS.ge (if n =? 0 then S754_zero neg else JS.of_Z (cond_Zopp neg n)) (JS.of_Z c) =
  (c <=? cond_Zopp neg n).
Proof.
  intros Hn Hc. destruct (Z.compare_spec c 0) as [->|Hneg|Hpos].
  - apply (ge_int_0 neg n Hn).
  - replace c with (- - c) by lia. apply (ge_int_below_0 neg n Hn). lia.
  - apply (ge_int neg n Hn). lia.
Qed.

Lemma le_whole neg n c :
  0 <= n -> - 2 ^ 53 < c < 2 ^ 53 ->
  JS.le (if n =? 0 then S754_zero neg else JS.of_Z (cond_Zopp neg n)) (JS.of_Z c) =
  (cond_Zopp neg n <=? c).
Proof.
  intros Hn Hc. destruct (Z.compare_spec c 0) as [->|Hneg|Hpos].
  - apply (le_int_0 neg n Hn).
  - replace c with (- - c) by lia. apply (le_int_below_0 neg n Hn). lia.
  - apply (le_int neg n Hn). lia.
Qed.

(** X7: the range check with whole bounds of magnitude below 2^53, either
    of which may be left [undefined], passes exactly when [parseInt] reads
    an integer from the text and that integer is inside the bounds given;
    a bound left out does not constrain it, so without an upper bound
    every integer from the lower bound on passes, however large. *)
Theorem X7_amountCondition_bounds (f : HTMLFormElement) (lo hi : option Z) :
  bound_ok lo -> bound_ok hi ->
  amountCondition f (bound lo) (bound hi) =
  match JS.scan_int (value f) with
  | Some (neg, n) => at_least lo (cond_Zopp neg n) && at_most hi (cond_Zopp neg n)
  | None => false
  end.
Proof.
  intros Hlo Hhi. unfold amountCondition, JS.parseInt.
  destruct (JS.scan_int (value f)) as [[neg n]|] eqn:Hs; [|destruct lo, hi; reflexivity].
  pose proof (scan_int_nonneg _ _ _ Hs) as Hn.
  assert (Hge : JS.ge (if n =? 0 then S754_zero neg else JS.of_Z (cond_Zopp neg n))
                  match bound lo with Some v => v | None => JS.negInfinity end =
                at_least lo (cond_Zopp neg n)).
  { destruct lo as [l|]; cbn [bound option_map at_least].
    - apply ge_whole; assumption.
    - apply ge_int_neg_inf. assumption. }
  assert (Hle : JS.le (if n =? 0 then S754_zero neg else JS.of_Z (cond_Zopp neg n))
                  match bound hi with Some v => v | None => JS.Infinity end =
                at_most hi (cond_Zopp neg n)).
  { destruct hi as [h|]; cbn [bound option_map at_most].
    - apply le_whole; assumption.
    - apply (le_int_inf neg n Hn). }
  rewrite Hge, Hle. destruct (_ && _); reflexivity.
Qed.

Lemma X7_witness :
  amountCondition (mkField "-12") (bound (Some (-20))) (bound (Some 0)) =
  match JS.scan_int "-12" with
  | Some (neg, n) => at_least (Some (-20)) (cond_Zopp neg n) && at_most (Some 0) (cond_Zopp neg n)
  | None => false
  end.
Proof.
  apply (X7_amountCondition_bounds (mkField "-12") (Some (-20)) (Some 0)).
  - cbn. lia.
  - cbn. lia.
Defined.

(** *** Text lemmas *)

Lemma length_append s t : String.length (s ++ t) = (String.length s + String.length t)%nat.
Proof. induction s as [|c s IH]; cbn; [reflexivity|]. rewrite IH. reflexivity. Qed.

Lemma append_assoc s t u : (s ++ t) ++ u = s ++ (t ++ u).
Proof. induction s as [|c s IH]; cbn; [reflexivity|]. rewrite IH. reflexivity. Qed.

Lemma append_empty_r s : s ++ "" = s.
Proof. induction s as [|c s IH]; cbn; [reflexivity|]. rewrite IH. reflexivity. Qed.

Lemma length_zeros k : String.length (JS.zeros k) = k.
Proof. induction k as [|k IH]; cbn; [reflexivity|]. rewrite IH. reflexivity. Qed.

Lemma zeros_cons k s : JS.zeros k ++ String "0" s = String "0" (JS.zeros k ++ s).
Proof. induction k as [|k IH]; cbn; [reflexivity|]. rewrite IH. reflexivity. Qed.

Lemma zeros_add a b : JS.zeros (a + b) = JS.zeros a ++ JS.zeros b.
Proof. induction a as [|a IH]; cbn; [reflexivity|]. rewrite IH. reflexivity. Qed.

Lemma pad_loop_zeros i : forall s, pad_loop i s = JS.zeros i ++ s.
Proof.
  induction i as [|i IH]; intros s; cbn [pad_loop JS.zeros]; [reflexivity|].
  rewrite IH, zeros_cons. reflexivity.
Qed.

Lemma substring_all t : substring 0 (String.length t) t = t.
Proof. induction t as [|c t IH]; cbn; [reflexivity|]. rewrite IH. reflexivity. Qed.

Lemma substring_skip s n t :
  substring (String.length s) n (s ++ t) = substring 0 n t.
Proof. induction s as [|c s IH]; cbn [String.length append substring]; [reflexivity|exact IH]. Qed.

Lemma string_split k : forall s,
  (k <= String.length s)%nat ->
  exists pre suf, s = pre ++ suf /\ String.length pre = k.
Proof.
  induction k as [|k IH]; intros s Hk.
  - exists "", s. split; reflexivity.
  - destruct s as [|c s]; cbn [String.length] in Hk; [lia|].
    destruct (IH s ltac:(lia)) as (pre & suf & -> & Hp).
    exists (String c pre), suf. split; [reflexivity|]. cbn. rewrite Hp. reflexivity.
Qed.

(** The last [n >= 1] characters of a text that ends in [suf], [suf]
    having [n] characters. *)
Lemma slice_last_suffix n pre suf :
  String.length suf = n -> (0 < n)%nat ->
  slice_last n (pre ++ suf) = suf.
Proof.
  intros <- Hn. unfold slice_last.
  destruct (String.length suf) as [|n] eqn:E; [lia|]. rewrite <- E.
  rewrite length_append.
  replace (String.length pre + String.length suf - String.length suf)%nat
    with (String.length pre) by lia.
  rewrite substring_skip. apply substring_all.
Qed.

(** *** [rightTruncate] *)

(** X8: for a length of at least one, [rightTruncate] returns exactly
    [len] characters, and they are the last [len] characters of the
    numeral of the input, the numeral first being filled up with zeros to
    [len] characters when it is shorter. *)
Theorem X8_rightTruncate_shape (input : JS.number) (len : nat) :
  (0 < len)%nat ->
  String.length (rightTruncate input len) = len /\
  exists pre,
    JS.zeros (len - String.length (JS.toString input)) ++ JS.toString input =
    pre ++ rightTruncate input len.
Proof.
  intros Hlen. unfold rightTruncate. rewrite pad_loop_zeros.
  set (str := JS.toString input).
  set (b := (len - String.length str)%nat).
  set (u := JS.zeros b ++ str).
  assert (Hu : (len <= String.length u)%nat).
  { unfold u, b. rewrite length_append, length_zeros. lia. }
  destruct (string_split (String.length u - len) u ltac:(lia)) as (pre & suf & Hsplit & Hpre).
  assert (Hsuf : String.length suf = len).
  { pose proof (f_equal String.length Hsplit) as H. rewrite length_append in H. lia. }
  replace (JS.zeros len ++ str) with ((JS.zeros (len - b) ++ pre) ++ suf).
  2:{ rewrite append_assoc, <- Hsplit. unfold u. rewrite <- append_assoc, <- zeros_add.
      f_equal. f_equal. unfold b. lia. }
  rewrite (slice_last_suffix len _ suf Hsuf Hlen).
  split; [exact Hsuf|]. exists pre. exact Hsplit.
Qed.

Lemma X8_witness :
  String.length (rightTruncate (JS.of_Z 12345) 2) = 2%nat /\
  exists pre,
    JS.zeros (2 - String.length (JS.toString (JS.of_Z 12345))) ++ JS.toString (JS.of_Z 12345) =
    pre ++ rightTruncate (JS.of_Z 12345) 2.
Proof.
  apply (X8_rightTruncate_shape (JS.of_Z 12345) 2). lia.
Defined.


(** *** The numeral of a whole Number *)

Lemma digits_aux_acc fuel : forall n acc t,
  JS.digits_aux fuel n (acc ++ t) = JS.digits_aux fuel n acc ++ t.
Proof.
  induction fuel as [|fuel IH]; intros n acc t; cbn [JS.digits_aux]; [reflexivity|].
  destruct (n <? 10); [reflexivity|].
  change (String (JS.digit_char (n mod 10)) (acc ++ t))
    with (String (JS.digit_char (n mod 10)) acc ++ t).
  apply IH.
Qed.

Lemma digits_aux_fuel f1 : forall f2 n acc,
  0 < n < 2 ^ Z.of_nat f1 -> n < 2 ^ Z.of_nat f2 ->
  JS.digits_aux f1 n acc = JS.digits_aux f2 n acc.
Proof.
  induction f1 as [|f1 IH]; intros f2 n acc H1 H2.
  - cbn in H1. lia.
  - destruct f2 as [|f2]; [cbn in H2; lia|].
    cbn [JS.digits_aux]. destruct (Z.ltb_spec n 10) as [|Hge]; [reflexivity|].
    rewrite Nat2Z.inj_succ, Z.pow_succ_r in H1, H2 by lia.
    apply IH.
    + split; [apply Z.div_str_pos; lia|].
      apply Z.div_lt_upper_bound; lia.
    + apply Z.div_lt_upper_bound; lia.
Qed.

Lemma decimal_small n : 0 <= n < 10 -> JS.decimal n = String (JS.digit_char n) "".
Proof.
  intros Hn. unfold JS.decimal. cbn [JS.digits_aux].
  replace (n <? 10) with true by (symmetry; apply Z.ltb_lt; lia).
  rewrite Z.mod_small by lia. reflexivity.
Qed.

Lemma decimal_step n :
  10 <= n -> JS.decimal n = JS.decimal (n / 10) ++ String (JS.digit_char (n mod 10)) "".
Proof.
  intros Hn. unfold JS.decimal at 1. cbn [JS.digits_aux].
  replace (n <? 10) with false by (symmetry; apply Z.ltb_ge; lia).
  change (String (JS.digit_char (n mod 10)) "")
    with ("" ++ String (JS.digit_char (n mod 10)) "") at 1.
  rewrite digits_aux_acc. f_equal. unfold JS.decimal.
  assert (Hq : 0 < n / 10) by (apply Z.div_str_pos; lia).
  pose proof (Z.log2_spec n ltac:(lia)) as Hl.
  pose proof (Z.log2_spec (n / 10) Hq) as Hl'.
  pose proof (Z.log2_nonneg n). pose proof (Z.log2_nonneg (n / 10)).
  apply digits_aux_fuel.
  - split; [assumption|]. rewrite Z2Nat.id by assumption.
    apply Z.div_lt_upper_bound; [lia|].
    replace (Z.succ (Z.log2 n)) with (Z.log2 n + 1) in Hl by lia.
    rewrite Z.pow_add_r in Hl by lia. lia.
  - rewrite Nat2Z.inj_succ, Z2Nat.id by assumption. lia.
Qed.

Lemma zeros_snoc j : JS.zeros j ++ "0" = JS.zeros (S j).
Proof. rewrite zeros_cons, append_empty_r. reflexivity. Qed.

Lemma decimal_mul_pow10 s j :
  0 < s -> JS.decimal (s * 10 ^ Z.of_nat j) = JS.decimal s ++ JS.zeros j.
Proof.
  intros Hs. induction j as [|j IH].
  - cbn [Z.of_nat Z.pow JS.zeros]. rewrite Z.mul_1_r, append_empty_r. reflexivity.
  - rewrite Nat2Z.inj_succ, Z.pow_succ_r by lia.
    assert (0 < 10 ^ Z.of_nat j) by (apply Z.pow_pos_nonneg; lia).
    replace (s * (10 * 10 ^ Z.of_nat j)) with (s * 10 ^ Z.of_nat j * 10) by lia.
    rewrite decimal_step by nia.
    rewrite Z.div_mul, Z.mod_mul by lia. rewrite IH.
    change (String (JS.digit_char 0) "") with "0".
    rewrite append_assoc, zeros_snoc. reflexivity.
Qed.

(** The digits found by the search read back as the Number. *)
Lemma digits_at_reads_back x a b n0 k n s :
  JS.digits_at x a b n0 k = Some (n, s) ->
  JS.number_eqb (JS.of_decimal false s (n - k)) x = true.
Proof.
  unfold JS.digits_at.
  set (lo := a * 10 ^ Z.max 0 (k - n0) / (b * 10 ^ Z.max 0 (n0 - k))).
  destruct (JS.number_eqb (JS.of_decimal false lo (n0 - k)) x) eqn:Elo;
  destruct (JS.number_eqb (JS.of_decimal false (lo + 1) (n0 - k)) x) eqn:Ehi;
  destruct (JS.number_eqb (JS.of_decimal false (10 ^ (k - 1)) (n0 + 1 - k)) x) eqn:Ero;
  destruct (10 ^ (k - 1) <=? lo); destruct (10 ^ (k - 1) <=? lo + 1);
  destruct (lo + 1 =? 10 ^ k); cbn [andb];
    try destruct (_ ?= _); try destruct (Z.even lo);
    intros [= <- <-]; assumption.
Qed.

Lemma canon_injective M N :
  0 < M < 2 ^ 53 -> 0 < N < 2 ^ 53 -> canon false M = canon false N -> M = N.
Proof.
  intros HM HN E.
  pose proof (compare_canon M N HM HN) as H1.
  pose proof (compare_canon N N HN HN) as H2.
  rewrite E, H2 in H1. rewrite Z.compare_refl in H1. injection H1 as H1.
  symmetry in H1. apply Z.compare_eq_iff in H1. exact H1.
Qed.

Lemma of_Z_injective M N :
  0 < M -> 0 < N < 2 ^ 53 -> JS.of_Z M = JS.of_Z N -> M = N.
Proof.
  intros HM HN E. rewrite (of_Z_canon N HN) in E.
  pose proof (Zdigits2_le_53 N HN).
  destruct (of_Z_cases false M HM) as [[Hs H1]|[Hb [H1|(m & e & He & H1)]]];
    cbn [cond_Zopp] in H1; rewrite H1 in E.
  - apply canon_injective; [lia|assumption|exact E].
  - discriminate E.
  - unfold canon in E. injection E as _ E. lia.
Qed.

(** The numeral of a whole Number below 2^53 is its decimal numeral. *)
Lemma positive_to_string_canon N :
  0 < N < 2 ^ 53 ->
  JS.positive_to_string (Z.to_pos (N * 2 ^ (53 - Zdigits2 N))) (Zdigits2 N - 53) =
  JS.decimal N.
Proof.
  intros HN'.
  pose proof (of_Z_canon N HN') as Hx.
  pose proof (Zdigits2_le_53 N HN') as Hd53.
  pose proof (Zdigits2_pos N ltac:(lia)) as Hd0.
  pose proof (canon_mantissa N HN') as Hm.
  unfold canon in *.
  set (m := Z.to_pos (N * 2 ^ (53 - Zdigits2 N))) in *.
  set (e := Zdigits2 N - 53) in *.
  unfold JS.positive_to_string.
  set (a := match e with Z.neg _ => Z.pos m | _ => Z.pos m * 2 ^ e end).
  set (b := match e with Z.neg k => 2 ^ Z.pos k | _ => 1 end).
  assert (Hab : 0 < b /\ a = N * b).
  { unfold a, b. destruct e as [|k|k] eqn:He; try lia.
    - rewrite Hm. replace (53 - Zdigits2 N) with 0 by lia. cbn. lia.
    - rewrite Hm. replace (53 - Zdigits2 N) with (Z.pos k) by lia.
      split; [apply Z.pow_pos_nonneg; lia|reflexivity]. }
  destruct Hab as [Hb Ha].
  set (D := JS.magnitude10 a b).
  assert (HD : 1 <= D /\ 10 ^ (D - 1) <= N < 10 ^ D).
  { unfold D, JS.magnitude10.
    replace (b <=? a) with true by (symmetry; apply Z.leb_le; nia).
    assert (Hq : a / b = N) by (rewrite Ha; apply Z.div_mul; lia).
    rewrite Hq.
    destruct (magnitude_up_spec (S (Z.to_nat (Z.log2 a))) N 1) as (H1 & H2 & H3).
    { split; [lia|].
      rewrite Nat2Z.inj_succ, Z2Nat.id by apply Z.log2_nonneg.
      pose proof (Z.log2_spec a ltac:(nia)). nia. }
    split; [assumption|].
    replace (JS.magnitude_up (S (Z.to_nat (Z.log2 a))) N 1 - 1 + 1)
      with (JS.magnitude_up (S (Z.to_nat (Z.log2 a))) N 1) in H3 by lia.
    auto. }
  destruct HD as (HD1 & HDlo & HDhi).
  assert (HD16 : D <= 16).
  { destruct (Z_le_gt_dec D 16) as [|Hgt]; [assumption|].
    assert (10 ^ 16 <= 10 ^ (D - 1)) by (apply Z.pow_le_mono_r; lia).
    assert (2 ^ 53 < 10 ^ 16) by reflexivity. lia. }
  assert (Hat : JS.digits_at (S754_finite false m e) a b D D <> None).
  { unfold JS.digits_at.
    rewrite Z.sub_diag. cbn [Z.max Z.pow]. rewrite !Z.mul_1_r.
    replace (a / b) with N by (rewrite Ha; symmetry; apply Z.div_mul; lia).
    replace (10 ^ (D - 1) <=? N) with true by (symmetry; apply Z.leb_le; lia).
    assert (Hdec : JS.of_decimal false N 0 = S754_finite false m e).
    { unfold JS.of_decimal.
      replace (N =? 0) with false by (symmetry; apply Z.eqb_neq; lia).
      cbn [Z.leb Z.compare cond_Zopp Z.pow]. rewrite Z.mul_1_r. exact Hx. }
    rewrite Hdec, number_eqb_refl. cbn [andb].
    repeat match goal with
           | |- context [if ?c then _ else _] => destruct c
           | |- context [match ?c with Eq => _ | Lt => _ | Gt => _ end] => destruct c
           end; discriminate. }
  destruct (shortest_digits_first _ a b D JS.lengths D lengths_sorted
              ltac:(apply lengths_range; lia) Hat)
    as (n & k & s & -> & Hk & Hin & Hks).
  apply lengths_range in Hin.
  destruct (digits_at_some _ _ _ _ _ _ _ Hks) as [Hs Hn].
  assert (0 < 10 ^ (k - 1)) by (apply Z.pow_pos_nonneg; lia).
  replace ((k <=? n) && (n <=? 21)) with true
    by (symmetry; apply andb_true_intro; split; apply Z.leb_le; lia).
  (* the digits found are those of N *)
  apply digits_at_reads_back, number_eqb_eq in Hks.
  unfold JS.of_decimal in Hks.
  replace (s =? 0) with false in Hks by (symmetry; apply Z.eqb_neq; lia).
  replace (0 <=? n - k) with true in Hks by (symmetry; apply Z.leb_le; lia).
  cbn [cond_Zopp] in Hks. fold (JS.of_Z (s * 10 ^ (n - k))) in Hks.
  rewrite <- Hx in Hks.
  assert (0 < 10 ^ (n - k)) by (apply Z.pow_pos_nonneg; lia).
  apply of_Z_injective in Hks; [|nia|assumption].
  rewrite <- Hks. rewrite <- (Z2Nat.id (n - k)) at 2 by lia.
  symmetry. apply decimal_mul_pow10. lia.
Qed.

Lemma toString_of_Z N :
  0 <= N < 2 ^ 53 -> JS.toString (JS.of_Z N) = JS.decimal N.
Proof.
  intros HN. destruct (Z.eq_dec N 0) as [->|Hne]; [reflexivity|].
  rewrite of_Z_canon by lia. unfold canon. cbn [JS.toString append].
  apply positive_to_string_canon. lia.
Qed.

(** X9: the numeral [toString] gives for a whole Number of magnitude below
    2^53 is its plain decimal numeral, with a minus sign in front when it
    is negative: no exponent, no point, no lost digit. *)
Theorem X9_toString_whole (N : Z) :
  - 2 ^ 53 < N < 2 ^ 53 ->
  JS.toString (JS.of_Z N) = (if N <? 0 then "-" else "") ++ JS.decimal (Z.abs N).
Proof.
  intros HN. destruct (Z.ltb_spec N 0) as [Hneg|Hpos].
  - replace N with (- Z.abs N) at 1 by lia.
    rewrite of_Z_canon_neg by lia. unfold canon. cbn [JS.toString].
    f_equal. apply positive_to_string_canon. lia.
  - rewrite Z.abs_eq by lia. apply toString_of_Z. lia.
Qed.

Lemma X9_witness :
  JS.toString (JS.of_Z (-900099)) =
  (if -900099 <? 0 then "-" else "") ++ JS.decimal (Z.abs (-900099)).
Proof.
  apply (X9_toString_whole (-900099)). lia.
Defined.

(** *** The last digits of a whole amount *)

Lemma length_last_digits len : forall n, String.length (last_digits len n) = len.
Proof.
  induction len as [|len IH]; intros n; cbn [last_digits]; [reflexivity|].
  rewrite length_append, IH. cbn. lia.
Qed.

Lemma last_digits_0 len : last_digits len 0 = JS.zeros len.
Proof.
  induction len as [|len IH]; cbn [last_digits]; [reflexivity|].
  change (0 / 10) with 0. rewrite IH. apply zeros_snoc.
Qed.

Lemma last_digits_suffix len : forall n j,
  0 <= n -> (len <= j + String.length (JS.decimal n))%nat ->
  exists pre, JS.zeros j ++ JS.decimal n = pre ++ last_digits len n.
Proof.
  induction len as [|len IH]; intros n j Hn Hj.
  - exists (JS.zeros j ++ JS.decimal n). cbn [last_digits]. rewrite append_empty_r. reflexivity.
  - cbn [last_digits]. destruct (Z_lt_ge_dec n 10) as [Hs|Hb].
    + rewrite decimal_small in * by lia. cbn [String.length] in Hj.
      rewrite Z.div_small, Z.mod_small, last_digits_0 by lia.
      exists (JS.zeros (j - len)).
      replace j with ((j - len) + len)%nat at 1 by lia.
      rewrite zeros_add, append_assoc. reflexivity.
    + rewrite decimal_step in * by lia.
      rewrite length_append in Hj. cbn [String.length] in Hj.
      destruct (IH (n / 10) j ltac:(apply Z.div_pos; lia) ltac:(lia)) as [pre Hpre].
      exists pre. rewrite <- !append_assoc, Hpre. reflexivity.
Qed.

(** X10: for a whole input from 0 below 2^53 and a length of at least one,
    [rightTruncate] returns the last [len] decimal digits of the input,
    with zeros in front when the input has fewer digits. *)
Theorem X10_rightTruncate_last_digits (N : Z) (len : nat) :
  0 <= N < 2 ^ 53 -> (0 < len)%nat ->
  rightTruncate (JS.of_Z N) len = last_digits len N.
Proof.
  intros HN Hlen. unfold rightTruncate.
  rewrite pad_loop_zeros, toString_of_Z by assumption.
  destruct (last_digits_suffix len N len ltac:(lia) ltac:(lia)) as [pre ->].
  apply slice_last_suffix; [apply length_last_digits|assumption].
Qed.

Lemma X10_witness : rightTruncate (JS.of_Z 1234567) 3 = last_digits 3 1234567.
Proof.
  apply (X10_rightTruncate_last_digits 1234567 3); [lia|lia].
Defined.

(** *** Reading a numeral back *)

Lemma digits_text_app ds fs : digits_text (ds ++ fs) = digits_text ds ++ digits_text fs.
Proof.
  induction ds as [|d ds IH]; [reflexivity|].
  cbn [app digits_text fold_right append]. fold (digits_text (ds ++ fs)).
  fold (digits_text ds). rewrite IH. reflexivity.
Qed.

Lemma decimal_digits_text_fuel (fuel : nat) : forall N,
  0 <= N < Z.of_nat fuel ->
  exists ds, JS.decimal N = digits_text ds /\ Forall is_decimal_digit ds /\
             ds <> [] /\ JS.digits_value 10 ds = N.
Proof.
  induction fuel as [|fuel IH]; intros N HN; [lia|].
  destruct (Z_lt_ge_dec N 10) as [Hs|Hb].
  - exists [N]. rewrite decimal_small by lia.
    split; [reflexivity|]. split; [constructor; [exact (conj (proj1 HN) Hs)|constructor]|].
    split; [discriminate|]. cbn. lia.
  - destruct (IH (N / 10)) as (ds & E & HF & Hne & Hv).
    { split; [apply Z.div_pos; lia|]. apply Z.div_lt_upper_bound; lia. }
    exists (ds ++ [N mod 10])%list. rewrite decimal_step, E, digits_text_app by lia.
    split; [reflexivity|]. split.
    { apply Forall_app. split; [assumption|].
      constructor; [|constructor]. apply Z.mod_pos_bound. lia. }
    split; [destruct ds; discriminate|].
    rewrite digits_value_app, Hv. cbn [List.length Z.of_nat JS.digits_value fold_left].
    change (10 ^ Z.pos (Pos.of_succ_nat 0)) with 10.
    pose proof (Z.div_mod N 10 ltac:(lia)). lia.
Qed.

Lemma decimal_digits_text N :
  0 <= N ->
  exists ds, JS.decimal N = digits_text ds /\ Forall is_decimal_digit ds /\
             ds <> [] /\ JS.digits_value 10 ds = N.
Proof.
  intros HN. apply (decimal_digits_text_fuel (S (Z.to_nat N))). lia.
Qed.

Lemma stops_integer_span rest :
  stops_integer rest = true -> JS.span_digits 10 rest = ([], rest).
Proof.
  destruct rest as [|c rest]; [reflexivity|]. cbn [stops_integer JS.span_digits].
  intros H. destruct (JS.digit_value 10 c) as [v|] eqn:E; [|reflexivity].
  apply digit_value_10_is_digit in E. rewrite E in H. discriminate H.
Qed.

Lemma scan_int_digits ds rest :
  ds <> [] -> Forall is_decimal_digit ds -> stops_integer rest = true ->
  JS.scan_int (digits_text ds ++ rest) = Some (false, JS.digits_value 10 ds).
Proof.
  intros Hne Hds Hrest. destruct ds as [|d ds]; [congruence|]. clear Hne.
  inversion Hds as [|? ? Hd Hds']; subst.
  destruct (digit_char_cases d Hd) as (Hv & Hw & Hm & Hp & Hx & HX).
  pose proof (stops_integer_span rest Hrest) as Hspan.
  assert (Hstrip : JS.strip_sign (JS.trim_start (digits_text (d :: ds) ++ rest)) =
                   (false, digits_text (d :: ds) ++ rest)).
  { cbn [append digits_text fold_right JS.trim_start]. rewrite Hw.
    cbn [JS.strip_sign]. rewrite Hm, Hp. reflexivity. }
  unfold JS.scan_int. rewrite Hstrip.
  assert (Hplain :
    match digits_text (d :: ds) ++ rest with
    | String c0 (String c1 S') =>
        if Ascii.eqb c0 "0" && (Ascii.eqb c1 "x" || Ascii.eqb c1 "X")
        then (16, S') else (10, digits_text (d :: ds) ++ rest)
    | _ => (10, digits_text (d :: ds) ++ rest)
    end = (10, digits_text (d :: ds) ++ rest)).
  { cbn [digits_text fold_right append]. fold (digits_text ds).
    destruct ds as [|d' ds'].
    - cbn [digits_text fold_right append]. destruct rest as [|c rest]; [reflexivity|].
      cbn [stops_integer] in Hrest.
      destruct (Ascii.eqb c "x"), (Ascii.eqb c "X");
        rewrite ?andb_false_r in Hrest; try discriminate Hrest.
      rewrite andb_false_r. reflexivity.
    - inversion Hds' as [|? ? Hd' _]; subst.
      destruct (digit_char_cases d' Hd') as (_ & _ & _ & _ & Hx' & HX').
      cbn [digits_text fold_right append]. rewrite Hx', HX', andb_false_r. reflexivity. }
  rewrite Hplain, (span_digits_text (d :: ds) rest Hds) by (rewrite Hspan; reflexivity).
  reflexivity.
Qed.

Lemma scan_int_decimal_rest N rest :
  0 <= N -> stops_integer rest = true ->
  JS.scan_int (JS.decimal N ++ rest) = Some (false, N).
Proof.
  intros HN Hrest. destruct (decimal_digits_text N HN) as (ds & -> & HF & Hne & <-).
  apply scan_int_digits; assumption.
Qed.

Lemma scan_int_decimal N : 0 <= N -> JS.scan_int (JS.decimal N) = Some (false, N).
Proof.
  intros HN. rewrite <- (append_empty_r (JS.decimal N)).
  apply scan_int_decimal_rest; [assumption|reflexivity].
Qed.

Lemma scan_int_pad2 r : 0 <= r < 100 -> JS.scan_int (pad2 r) = Some (false, r).
Proof.
  intros Hr.
  change (pad2 r) with (digits_text [r / 10; r mod 10] ++ "").
  rewrite scan_int_digits; [|discriminate| |reflexivity].
  - cbn [JS.digits_value fold_left]. pose proof (Z.div_mod r 10 ltac:(lia)).
    do 2 f_equal. lia.
  - constructor; [|constructor; [|constructor]].
    + split; [apply Z.div_pos; lia|apply Z.div_lt_upper_bound; lia].
    + apply Z.mod_pos_bound. lia.
Qed.

(** X11: the range check reads only the whole number a text starts with:
    whatever follows the digits of a decimal integer (a fraction, an
    exponent, a unit, any text not starting with a digit or [x]) is
    ignored by the check, for every pair of bounds. *)
Theorem X11_amountCondition_ignores_rest (N : Z) (rest : string)
    (minValue maxValue : option JS.number) :
  0 <= N -> stops_integer rest = true ->
  amountCondition (mkField (JS.decimal N ++ rest)) minValue maxValue =
  amountCondition (mkField (JS.decimal N)) minValue maxValue.
Proof.
  intros HN Hrest. unfold amountCondition, JS.parseInt. cbn [value].
  rewrite scan_int_decimal_rest, scan_int_decimal by assumption. reflexivity.
Qed.

Lemma X11_witness :
  amountCondition (mkField (JS.decimal 9 ++ "e9")) (Some num_0) (Some (JS.of_Z 9000)) =
  amountCondition (mkField (JS.decimal 9)) (Some num_0) (Some (JS.of_Z 9000)).
Proof.
  apply (X11_amountCondition_ignores_rest 9 "e9"); [lia|reflexivity].
Defined.

(** X12: an amount of money that is a whole number of pence from 0 below
    2^53 is shown exactly: the pounds field is the decimal numeral of the
    amount divided by 100, the pennies field the two digits of the
    remainder, and the two fields read back as integers make up the
    amount. *)
Theorem X12_money_shown_exactly (k : amount) (b s p : HTMLFormElement) (a : Z) :
  amount_of k (compute b s p) = JS.of_Z a -> 0 <= a < 2 ^ 53 ->
  let fd := render (compute b s p) in
  pounds_of k fd = JS.decimal (a / 100) /\
  pennies_of k fd = pad2 (a mod 100) /\
  reads_as (pounds_of k fd) (pennies_of k fd) a.
Proof.
  intros Ha Ha53 fd.
  set (x := amount_of k (compute b s p)) in *.
  assert (Hf : pennies_of k fd = rightTruncate (JS.rem x num_100) 2 /\
               pounds_of k fd = JS.toString (JS.div (JS.sub x (JS.rem x num_100)) num_100)).
  { destruct k; split; reflexivity. }
  destruct Hf as [Hpen Hpou].
  destruct (money_fields x a Ha Ha53) as (M1 & M2 & _ & _).
  pose proof (Z.mod_pos_bound a 100 ltac:(lia)) as Hr.
  assert (Hq : 0 <= a / 100 < 2 ^ 53).
  { split; [apply Z.div_pos; lia|]. apply Z.div_lt_upper_bound; lia. }
  rewrite Hpen, Hpou, M1, M2, toString_of_Z by assumption.
  split; [reflexivity|]. split; [reflexivity|].
  exists (a / 100), (a mod 100).
  split; [apply scan_int_decimal; lia|]. split; [apply scan_int_pad2; assumption|].
  split; [assumption|]. pose proof (Z.div_mod a 100 ltac:(lia)). lia.
Qed.

Lemma X12_witness :
  let fd := render (compute (mkField "7300") (mkField "2000") (mkField "50")) in
  pounds_of AdminFee fd = JS.decimal (36500 / 100) /\
  pennies_of AdminFee fd = pad2 (36500 mod 100) /\
  reads_as (pounds_of AdminFee fd) (pennies_of AdminFee fd) 36500.
Proof.
  apply (X12_money_shown_exactly AdminFee (mkField "7300") (mkField "2000") (mkField "50") 36500).
  - vm_compute. reflexivity.
  - lia.
Defined.

(** *** Whole-number inputs *)

Lemma digit_char_not_I d rest :
  is_decimal_digit d ->
  JS.starts_with "Infinity" (String (JS.digit_char d) rest) = false.
Proof.
  unfold is_decimal_digit. intros H.
  assert (d = 0 \/ d = 1 \/ d = 2 \/ d = 3 \/ d = 4 \/ d = 5 \/ d = 6 \/ d = 7 \/
          d = 8 \/ d = 9) as Hd by lia.
  repeat (destruct Hd as [->|Hd]; [reflexivity|]).
  subst d. reflexivity.
Qed.

Lemma scan_float_digits ds :
  ds <> [] -> Forall is_decimal_digit ds ->
  JS.scan_float (digits_text ds) = Some (JS.LitDecimal false (JS.digits_value 10 ds) 0).
Proof.
  intros Hne Hds. destruct ds as [|d ds]; [congruence|]. clear Hne.
  inversion Hds as [|? ? Hd Hds']; subst.
  destruct (digit_char_cases d Hd) as (Hv & Hw & Hm & Hp & Hx & HX).
  assert (Hstrip : JS.strip_sign (JS.trim_start (digits_text (d :: ds))) =
                   (false, digits_text (d :: ds))).
  { cbn [append digits_text fold_right JS.trim_start]. rewrite Hw.
    cbn [JS.strip_sign]. rewrite Hm, Hp. reflexivity. }
  unfold JS.scan_float. rewrite Hstrip.
  replace (JS.starts_with "Infinity" (digits_text (d :: ds))) with false
    by (symmetry; apply digit_char_not_I; assumption).
  rewrite <- (append_empty_r (digits_text (d :: ds))).
  rewrite (span_digits_text (d :: ds) "" Hds) by reflexivity.
  cbn [JS.span_digits snd]. rewrite app_nil_r. reflexivity.
Qed.

Lemma parseFloat_decimal N : 0 <= N -> JS.parseFloat (JS.decimal N) = JS.of_Z N.
Proof.
  intros HN. destruct (decimal_digits_text N HN) as (ds & E & HF & Hne & Hv).
  unfold JS.parseFloat. rewrite E, scan_float_digits, Hv by assumption.
  unfold JS.of_decimal. destruct (Z.eqb_spec N 0) as [->|Hnz]; [reflexivity|].
  cbn [Z.leb Z.compare cond_Zopp Z.pow]. rewrite Z.mul_1_r. reflexivity.
Qed.

Lemma parseInt_decimal N : 0 <= N -> JS.parseInt (JS.decimal N) = JS.of_Z N.
Proof.
  intros HN. unfold JS.parseInt. rewrite scan_int_decimal by assumption.
  destruct (Z.eqb_spec N 0) as [->|Hnz]; reflexivity.
Qed.

(** X13: for a field holding the plain decimal numeral of a whole number,
    the Number the range check looks at ([parseInt]) is the Number the
    calculation uses ([parseFloat]): the whole number itself. *)
Theorem X13_whole_number_read_alike (N : Z) :
  0 <= N ->
  JS.parseInt (JS.decimal N) = JS.of_Z N /\ JS.parseFloat (JS.decimal N) = JS.of_Z N.
Proof.
  intros HN. split; [apply parseInt_decimal | apply parseFloat_decimal]; assumption.
Qed.

Lemma X13_witness :
  JS.parseInt (JS.decimal 7300) = JS.of_Z 7300 /\
  JS.parseFloat (JS.decimal 7300) = JS.of_Z 7300.
Proof.
  apply (X13_whole_number_read_alike 7300). lia.
Defined.

Lemma mul_exact a b :
  0 < a -> 0 < b -> a * b < 2 ^ 53 ->
  JS.mul (JS.of_Z a) (JS.of_Z b) = JS.of_Z (a * b).
Proof.
  intros Ha Hb Hab.
  assert (Ha53 : 0 < a < 2 ^ 53) by nia.
  assert (Hb53 : 0 < b < 2 ^ 53) by nia.
  assert (Hab53 : 0 < a * b < 2 ^ 53) by nia.
  rewrite (of_Z_canon a), (of_Z_canon b), (of_Z_canon (a * b)) by assumption.
  pose proof (Zdigits2_le_53 a Ha53) as Hda.
  pose proof (Zdigits2_le_53 b Hb53) as Hdb.
  pose proof (Zdigits2_pos a Ha) as Hda0.
  pose proof (Zdigits2_pos b Hb) as Hdb0.
  pose proof (Zdigits2_pos (a * b) ltac:(lia)) as Hdab0.
  unfold JS.mul, SFmul. unfold canon at 1. unfold canon at 1. cbn [xorb].
  rewrite Pos2Z.inj_mul, !canon_mantissa by assumption.
  set (E := Zdigits2 a - 53 + (Zdigits2 b - 53)).
  replace (a * 2 ^ (53 - Zdigits2 a) * (b * 2 ^ (53 - Zdigits2 b)))
    with (a * b * 2 ^ (- E)).
  - apply binary_round_aux_exact; [assumption|]. unfold E.
    pose proof (Zdigits2_bounds a Ha) as [La _].
    pose proof (Zdigits2_bounds b Hb) as [Lb _].
    pose proof (Zdigits2_bounds (a * b) ltac:(lia)) as [_ Uab].
    assert (Hp : 2 ^ (Zdigits2 a - 1 + (Zdigits2 b - 1)) < 2 ^ Zdigits2 (a * b)).
    { rewrite Z.pow_add_r by lia.
      assert (0 < 2 ^ (Zdigits2 a - 1)) by (apply Z.pow_pos_nonneg; lia).
      assert (0 < 2 ^ (Zdigits2 b - 1)) by (apply Z.pow_pos_nonneg; lia).
      nia. }
    apply Z.pow_lt_mono_r_iff in Hp; lia.
  - unfold E. replace (- (Zdigits2 a - 53 + (Zdigits2 b - 53)))
      with ((53 - Zdigits2 a) + (53 - Zdigits2 b)) by lia.
    rewrite Z.pow_add_r by lia. ring.
Qed.

Lemma gt_of_Z a c :
  0 <= a < 2 ^ 53 -> 0 < c < 2 ^ 53 -> JS.gt (JS.of_Z a) (JS.of_Z c) = (c <? a).
Proof.
  intros Ha Hc. unfold JS.gt, SFltb.
  destruct (Z.eq_dec a 0) as [->|Hnz].
  - rewrite (of_Z_canon c) by assumption. cbn. symmetry. apply Z.ltb_ge. lia.
  - rewrite (of_Z_canon c), (of_Z_canon a), compare_canon by lia.
    destruct (Z.compare_spec c a); symmetry;
      try (apply Z.ltb_lt; lia); apply Z.ltb_ge; lia.
Qed.

(** X14: for a borrow field holding the plain numeral of a whole number
    [N] of pounds, the borrow check passes exactly when [N <= 9000], the
    amount in pence is exactly [100 * N], and the total cost is 800000
    pence plus 50000 when [N > 6400] plus 50000 when [N > 7200], whatever
    the other two fields hold. *)
Theorem X14_whole_pounds (N : Z) (s p : HTMLFormElement) :
  0 <= N -> 100 * N < 2 ^ 53 ->
  let b := mkField (JS.decimal N) in
  borrowCondition b = (N <=? 9000) /\
  amountToBorrow (compute b s p) = JS.of_Z (100 * N) /\
  totalCost (compute b s p) = JS.of_Z (totalCost_pounds N).
Proof.
  intros HN H53 b.
  assert (Hamount : JS.mul num_100 (JS.parseFloat (value b)) = JS.of_Z (100 * N)).
  { unfold b. cbn [value]. rewrite parseFloat_decimal by assumption.
    destruct (Z.eq_dec N 0) as [->|Hnz]; [reflexivity|].
    apply mul_exact; lia. }
  split; [|split].
  - rewrite borrowCondition_scan_int. unfold b. cbn [value].
    rewrite scan_int_decimal by assumption. cbn [cond_Zopp].
    replace (0 <=? N) with true by (symmetry; apply Z.leb_le; lia). reflexivity.
  - rewrite amountToBorrow_compute. exact Hamount.
  - rewrite totalCost_compute, Hamount. unfold totalCost_of, totalCost_pounds.
    rewrite !gt_of_Z by (try lia; split; reflexivity).
    replace (640000 <? 100 * N) with (6400 <? N)
      by (destruct (Z.ltb_spec 6400 N); symmetry; [apply Z.ltb_lt|apply Z.ltb_ge]; lia).
    replace (720000 <? 100 * N) with (7200 <? N)
      by (destruct (Z.ltb_spec 7200 N); symmetry; [apply Z.ltb_lt|apply Z.ltb_ge]; lia).
    destruct (6400 <? N), (7200 <? N); vm_compute; reflexivity.
Qed.

Lemma X14_witness :
  let b := mkField (JS.decimal 6401) in
  borrowCondition b = (6401 <=? 9000) /\
  amountToBorrow (compute b (mkField "2000") (mkField "50")) = JS.of_Z (100 * 6401) /\
  totalCost (compute b (mkField "2000") (mkField "50")) = JS.of_Z (totalCost_pounds 6401).
Proof.
  apply (X14_whole_pounds 6401 (mkField "2000") (mkField "50")); lia.
Defined.

(** *** The total cost *)

(** X15: whatever the three fields hold, the total cost is shown as 8000,
    8500 or 9000 pounds and 00 pennies, and it does not depend on the
    salary or on the percentage field. *)
Theorem X15_totalCost_shown (b s p s' p' : HTMLFormElement) :
  let fd := render (compute b s p) in
  (totalCostPounds fd = "8000" \/ totalCostPounds fd = "8500" \/
   totalCostPounds fd = "9000") /\
  totalCostPennies fd = "00" /\
  totalCost (compute b s p) = totalCost (compute b s' p').
Proof.
  intros fd.
  assert (Hf : totalCostPennies fd = rightTruncate (JS.rem (totalCost (compute b s p)) num_100) 2 /\
               totalCostPounds fd =
                 JS.toString (JS.div (JS.sub (totalCost (compute b s p))
                                (JS.rem (totalCost (compute b s p)) num_100)) num_100))
    by (split; reflexivity).
  destruct Hf as [-> ->]. rewrite !totalCost_compute.
  destruct (totalCost_of_cases (JS.mul num_100 (JS.parseFloat (value b)))) as [E|[E|E]];
    rewrite E; (split; [|split; [|reflexivity]]).
  - left. vm_compute. reflexivity.
  - vm_compute. reflexivity.
  - right; left. vm_compute. reflexivity.
  - vm_compute. reflexivity.
  - right; right. vm_compute. reflexivity.
  - vm_compute. reflexivity.
Qed.

Lemma gt_mono m e a a' :
  JS.gt a (S754_finite false m e) = true -> JS.le a a' = true ->
  JS.gt a' (S754_finite false m e) = true.
Proof.
  unfold JS.gt, JS.le, SFltb.
  destruct a as [sa|sa| |sa ma ea]; destruct a' as [sb|sb| |sb mb eb];
    try destruct sa; try destruct sb; cbn; try discriminate; try reflexivity.
  change (Pos.compare_cont Eq ?x ?y) with (Pos.compare x y).
  destruct (Z.compare_spec e ea) as [He|He|He]; try discriminate.
  - subst ea. destruct (Pos.compare_spec m ma) as [Hm|Hm|Hm]; try discriminate. intros _.
    destruct (Z.compare_spec eb e) as [He'|He'|He']; try discriminate.
    + subst eb. rewrite Z.compare_refl.
      destruct (Pos.compare_spec mb ma) as [Hm'|Hm'|Hm']; try discriminate; intros _.
      * subst mb. replace (m ?= ma)%positive with Lt
          by (symmetry; apply Pos.compare_lt_iff; assumption). reflexivity.
      * replace (m ?= mb)%positive with Lt
          by (symmetry; apply Pos.compare_lt_iff; lia). reflexivity.
    + intros _. replace (e ?= eb) with Lt by (symmetry; apply Z.compare_lt_iff; lia).
      reflexivity.
  - intros _. destruct (Z.compare_spec eb ea) as [He'|He'|He']; try discriminate.
    + subst eb. replace (e ?= ea) with Lt by (symmetry; apply Z.compare_lt_iff; lia).
      reflexivity.
    + intros _. replace (e ?= eb) with Lt by (symmetry; apply Z.compare_lt_iff; lia).
      reflexivity.
Qed.

Lemma totalCost_of_monotone a a' :
  JS.le a a' = true -> JS.le (totalCost_of a) (totalCost_of a') = true.
Proof.
  intros Hle.
  assert (H64 : JS.gt a (JS.of_Z 640000) = true -> JS.gt a' (JS.of_Z 640000) = true).
  { replace (JS.of_Z 640000) with (S754_finite false 5497558138880000 (-33))
      by (vm_compute; reflexivity).
    intros H. exact (gt_mono _ _ a a' H Hle). }
  assert (H72 : JS.gt a (JS.of_Z 720000) = true -> JS.gt a' (JS.of_Z 720000) = true).
  { replace (JS.of_Z 720000) with (S754_finite false 6184752906240000 (-33))
      by (vm_compute; reflexivity).
    intros H. exact (gt_mono _ _ a a' H Hle). }
  pose proof (gt_720000_640000 a) as Ha. pose proof (gt_720000_640000 a') as Ha'.
  unfold totalCost_of.
  destruct (JS.gt a (JS.of_Z 640000)), (JS.gt a (JS.of_Z 720000)),
           (JS.gt a' (JS.of_Z 640000)), (JS.gt a' (JS.of_Z 720000));
    try (specialize (H64 eq_refl); discriminate H64);
    try (specialize (H72 eq_refl); discriminate H72);
    try (specialize (Ha eq_refl); discriminate Ha);
    try (specialize (Ha' eq_refl); discriminate Ha');
    vm_compute; reflexivity.
Qed.

(** X16: the total cost never falls when the amount borrowed rises: if the
    amount in pence of one input is at most that of another, so is its
    total cost. *)
Theorem X16_totalCost_monotone (b s p b' s' p' : HTMLFormElement) :
  JS.le (amountToBorrow (compute b s p)) (amountToBorrow (compute b' s' p')) = true ->
  JS.le (totalCost (compute b s p)) (totalCost (compute b' s' p')) = true.
Proof.
  rewrite !amountToBorrow_compute, !totalCost_compute. apply totalCost_of_monotone.
Qed.

Lemma X16_witness :
  JS.le (totalCost (compute (mkField "6400.5") (mkField "1") (mkField "10")))
        (totalCost (compute (mkField "7200.01") (mkField "2") (mkField "20"))) = true.
Proof.
  apply X16_totalCost_monotone. vm_compute. reflexivity.
Defined.

(** *** The schedule *)

(** X17: when the monthly repayment is a whole amount [m] of pence,
    [0 < m < 2^53], the schedule adds up: the months shown are a whole
    number [k >= 1], the final payment [r] is below the monthly repayment,
    and [k - 1] monthly repayments plus the final payment make the total
    cost exactly.  When the monthly repayment divides the total cost the
    final payment is 0 and a month is still counted for it. *)
Theorem X17_schedule_adds_up (b s p : HTMLFormElement) (m : Z) :
  monthlyAmountRepaid (compute b s p) = JS.of_Z m -> 0 < m < 2 ^ 53 ->
  let w := compute b s p in
  exists T k r,
    totalCost w = JS.of_Z T /\ timeToRepayN w = JS.of_Z k /\
    repayInLastMonth w = JS.of_Z r /\
    1 <= k /\ 0 <= r < m /\ (k - 1) * m + r = T /\
    (T mod m = 0 -> r = 0 /\ k = T / m + 1).
Proof.
  intros Hm Hm53 w.
  assert (HT : exists T, totalCost w = JS.of_Z T /\ 0 < T < 2 ^ 52).
  { unfold w. rewrite totalCost_compute.
    destruct (totalCost_of_cases (JS.mul num_100 (JS.parseFloat (value b))))
      as [E|[E|E]]; rewrite E; eexists; (split; [reflexivity|split; reflexivity]). }
  destruct HT as (T & HT & HTr).
  destruct (schedule_exact T m HTr Hm53) as [Hrem Htime].
  pose proof (Z.mod_pos_bound T m ltac:(lia)) as Hr.
  assert (Hlast : repayInLastMonth w = JS.of_Z (T mod m)).
  { change (repayInLastMonth w) with (JS.rem (totalCost w) (monthlyAmountRepaid w)).
    fold w in Hm. rewrite HT, Hm. exact Hrem. }
  assert (Htime' : timeToRepayN w = JS.of_Z (1 + (T - T mod m) / m)).
  { change (timeToRepayN w)
      with (JS.add num_1 (JS.ceil (JS.div
              (JS.sub (totalCost w) (repayInLastMonth w)) (monthlyAmountRepaid w)))).
    fold w in Hm. rewrite Hlast, HT, Hm. exact Htime. }
  assert (Hq : (T - T mod m) / m = T / m).
  { pose proof (Z.div_mod T m ltac:(lia)) as Hdm.
    replace (T - T mod m) with (T / m * m) by lia. apply Z.div_mul. lia. }
  pose proof (Z.div_pos T m ltac:(lia) ltac:(lia)) as Hq0.
  pose proof (Z.div_mod T m ltac:(lia)) as Hdm.
  rewrite Hq in Htime'.
  exists T, (1 + T / m), (T mod m).
  split; [exact HT|]. split; [exact Htime'|]. split; [exact Hlast|].
  split; [lia|]. split; [exact Hr|]. split; [nia|].
  intros H0. split; [exact H0|lia].
Qed.

Lemma X17_witness :
  let w := compute (mkField "1000") (mkField "3000") (mkField "50") in
  exists T k r,
    totalCost w = JS.of_Z T /\ timeToRepayN w = JS.of_Z k /\
    repayInLastMonth w = JS.of_Z r /\
    1 <= k /\ 0 <= r < 150000 /\ (k - 1) * 150000 + r = T /\
    (T mod 150000 = 0 -> r = 0 /\ k = T / 150000 + 1).
Proof.
  apply (X17_schedule_adds_up (mkField "1000") (mkField "3000") (mkField "50") 150000).
  - vm_compute. reflexivity.
  - lia.
Defined.

(** *** Hexadecimal input *)

Lemma scan_int_hex t :
  JS.scan_int ("0x" ++ t) =
  match fst (JS.span_digits 16 t) with
  | [] => None
  | ds => Some (false, JS.digits_value 16 ds)
  end.
Proof. reflexivity. Qed.

(** X18: a borrow text starting with [0x] is checked by its hexadecimal
    value, which [parseInt] reads, but calculated as 0, which is what
    [parseFloat] reads from it: the check passes exactly when hexadecimal
    digits follow and their value is at most 9000, and then the amount
    borrowed and the fee are 0 and the total cost is 800000 pence,
    whatever the digits. *)
Theorem X18_hexadecimal_borrow (t : string) (s p : HTMLFormElement) :
  let b := mkField ("0x" ++ t) in
  borrowCondition b =
    match fst (JS.span_digits 16 t) with
    | [] => false
    | ds => JS.digits_value 16 ds <=? 9000
    end /\
  amountToBorrow (compute b s p) = num_0 /\
  adminFee (compute b s p) = num_0 /\
  totalCost (compute b s p) = JS.of_Z 800000.
Proof.
  intros b. split; [|repeat split; reflexivity].
  rewrite borrowCondition_scan_int.
  pose proof (scan_int_nonneg ("0x" ++ t) false) as Hn.
  unfold b. cbn [value]. rewrite scan_int_hex in *.
  destruct (fst (JS.span_digits 16 t)) as [|d ds]; [reflexivity|].
  specialize (Hn _ eq_refl). cbn [cond_Zopp].
  replace (0 <=? JS.digits_value 16 (d :: ds)) with true
    by (symmetry; apply Z.leb_le; exact Hn).
  reflexivity.
Qed.
